(** * SolidRedux: the [combineSelectors] selector library

    A shallow embedding of [src/store/combineSelectors.ts] (parameterized,
    memoized, curried selectors) together with the two builtins it leans on:
    [JSON.stringify] (ECMA-262, 25.5.2) and react-redux's [shallowEqual].

    JavaScript values are modelled with their identity: objects, arrays and
    functions live in a heap and are denoted by their location, so that
    [===] on them is equality of locations.  Effects (throwing, and whatever
    the input selectors and the combiner do to the outside world) are
    threaded through a small state-and-exception monad. *)

From Stdlib Require Import Ascii.
From stdpp Require Import gmap strings list fin_maps pretty.

Local Open Scope string_scope.

(** ** Values and the heap *)

(** Heap locations.  *)
Abbreviation loc := nat (only parsing).

(** The fragment of Number that is modelled: NaN, the two infinities, the
    negative zero and the integers (those that Number::toString prints in
    plain decimal).  Fractions are outside the fragment; nothing in the
    library does arithmetic, numbers are only compared and serialised. *)
Inductive number :=
| NaN
| Infinity (negative : bool)
| NegZero
| Integer (z : Z).

Inductive value :=
| VUndefined
| VNull
| VBool (b : bool)
| VNum (n : number)
| VStr (s : string)
| VRef (l : loc).

#[global] Instance number_eq_dec : EqDecision number.
Proof. solve_decision. Defined.
#[global] Instance value_eq_dec : EqDecision value.
Proof. solve_decision. Defined.

(** What lives at a location: a plain object with its own enumerable data
    properties, listed in the order in which the engine enumerates them
    (creation order for keys that are not array indices), each key once; a
    dense array; or a function.  Accessors, symbols, [toJSON] methods and
    exotic objects are outside the fragment. *)
Inductive body :=
| Props (ps : list (string * value))
| Elems (es : list value)
| Callable.

Record object := { body_of : body; proto : option loc }.

#[global] Instance body_eq_dec : EqDecision body.
Proof. solve_decision. Defined.
#[global] Instance object_eq_dec : EqDecision object.
Proof. solve_decision. Defined.

Abbreviation heap := (gmap loc object) (only parsing).

(** Exceptions: the builtin [TypeError], or any thrown value. *)
Inductive exn :=
| TypeError (msg : string)
| Thrown (v : value).

Inductive Completion (A : Type) :=
| Normal (a : A)
| Throw (e : exn).
Arguments Normal {A} a.
Arguments Throw {A} e.

(** ** Equality strategies *)

(** IEEE equality on the modelled numbers: NaN differs from itself and the
    two zeros are equal. *)
Definition number_eq (a b : number) : bool :=
  match a, b with
  | NaN, _ | _, NaN => false
  | Infinity s, Infinity t => bool_decide (s = t)
  | NegZero, NegZero => true
  | NegZero, Integer z | Integer z, NegZero => bool_decide (z = 0%Z)
  | Integer x, Integer y => bool_decide (x = y)
  | _, _ => false
  end.

(** [v1 === v2] *)
Definition strict_eq (v1 v2 : value) : bool :=
  match v1, v2 with
  | VUndefined, VUndefined => true
  | VNull, VNull => true
  | VBool a, VBool b => bool_decide (a = b)
  | VNum a, VNum b => number_eq a b
  | VStr a, VStr b => bool_decide (a = b)
  | VRef a, VRef b => bool_decide (a = b)
  | _, _ => false
  end.

(** [1 / x], as react-redux's [is] uses it: only ever evaluated on a zero. *)
Definition reciprocal_of_zero (x : value) : value :=
  match x with
  | VNum NegZero => VNum (Infinity true)
  | VNum (Integer 0) => VNum (Infinity false)
  | _ => VNum NaN
  end.

(** react-redux, [shallowEqual.ts]:
<<
  function is(x, y) {
    if (x === y) { return x !== 0 || y !== 0 || 1 / x === 1 / y }
    else { return x !== x && y !== y }
  }
>>
    ([is] is reserved in Rocq, hence the name.) *)
Definition Object_is (x y : value) : bool :=
  if strict_eq x y then
    negb (strict_eq x (VNum (Integer 0))) || negb (strict_eq y (VNum (Integer 0)))
    || strict_eq (reciprocal_of_zero x) (reciprocal_of_zero y)
  else negb (strict_eq x x) && negb (strict_eq y y).

(** [typeof v] *)
Definition typeof (h : heap) (v : value) : string :=
  match v with
  | VUndefined => "undefined"
  | VNull => "object"
  | VBool _ => "boolean"
  | VNum _ => "number"
  | VStr _ => "string"
  | VRef l =>
      match body_of <$> h !! l with
      | Some Callable => "function"
      | Some _ => "object"
      | None => "undefined"
      end
  end.

(** The keys ["0"], ["1"], ... of an array of length [n]. *)
Definition index_keys (n : nat) : list string := pretty <$> seq 0 n.

(** Own enumerable string-keyed properties, in enumeration order. *)
Definition own_enumerable (o : object) : list (string * value) :=
  match body_of o with
  | Props ps => ps
  | Elems es => zip (index_keys (length es)) es
  | Callable => []
  end.

(** [Object.keys(o)] *)
Definition Object_keys (o : object) : list string := fst <$> own_enumerable o.

Fixpoint assoc (k : string) (ps : list (string * value)) : option value :=
  match ps with
  | [] => None
  | (k', v) :: ps => if bool_decide (k' = k) then Some v else assoc k ps
  end.

(** The own property [k] of [o], enumerable or not: an array also owns its
    [length]. *)
Definition own_property (o : object) (k : string) : option value :=
  match assoc k (own_enumerable o), body_of o with
  | Some v, _ => Some v
  | None, Elems es =>
      if bool_decide (k = "length") then Some (VNum (Integer (Z.of_nat (length es))))
      else None
  | None, _ => None
  end.

(** [Object.prototype.hasOwnProperty.call(o, k)] *)
Definition hasOwnProperty (o : object) (k : string) : bool :=
  bool_decide (is_Some (own_property o k)).

(** [o[k]] for a key the object owns. *)
Definition own_get (o : object) (k : string) : value :=
  default VUndefined (own_property o k).

(** react-redux's [shallowEqual] once both operands are known to be
    non-null objects:
<<
  const keysA = Object.keys(objA)
  const keysB = Object.keys(objB)
  if (keysA.length !== keysB.length) return false
  for (let i = 0; i < keysA.length; i++) {
    if (!Object.prototype.hasOwnProperty.call(objB, keysA[i]) ||
        !is(objA[keysA[i]], objB[keysA[i]])) { return false }
  }
  return true
>> *)
Definition shallowEqual_objects (objA objB : object) : bool :=
  let keysA := Object_keys objA in
  let keysB := Object_keys objB in
  if negb (bool_decide (length keysA = length keysB)) then false
  else forallb (fun k => hasOwnProperty objB k && Object_is (own_get objA k) (own_get objB k)) keysA.

(** react-redux's [shallowEqual(objA, objB)]. *)
Definition shallowEqual (h : heap) (objA objB : value) : bool :=
  if Object_is objA objB then true
  else if negb (bool_decide (typeof h objA = "object")) || strict_eq objA VNull
          || negb (bool_decide (typeof h objB = "object")) || strict_eq objB VNull
  then false
  else
    match objA, objB with
    | VRef la, VRef lb =>
        match h !! la, h !! lb with
        | Some oa, Some ob => shallowEqual_objects oa ob
        | _, _ => false
        end
    | _, _ => false
    end.

(** ** [JSON.stringify] *)

Definition dquote : ascii := ascii_of_nat 34.
Definition backslash : ascii := ascii_of_nat 92.

Definition hex_digit (n : nat) : ascii :=
  ascii_of_nat (if (n <? 10)%nat then 48 + n else 87 + n).

(** One character of QuoteJSONString (ECMA-262, 25.5.2.3): the short
    escapes, [\u00xx] for the other control characters, the character
    itself otherwise. *)
Definition escape_char (c : ascii) : string :=
  let n := nat_of_ascii c in
  if (n =? 8)%nat then String backslash "b"
  else if (n =? 9)%nat then String backslash "t"
  else if (n =? 10)%nat then String backslash "n"
  else if (n =? 12)%nat then String backslash "f"
  else if (n =? 13)%nat then String backslash "r"
  else if (n =? 34)%nat then String backslash (String dquote "")
  else if (n =? 92)%nat then String backslash (String backslash "")
  else if (n <? 32)%nat then
    String backslash ("u00" +:+ String (hex_digit (n / 16)) (String (hex_digit (n mod 16)) ""))
  else String c "".

Fixpoint escape (s : string) : string :=
  match s with
  | "" => ""
  | String c s => escape_char c +:+ escape s
  end.

Definition QuoteJSONString (s : string) : string :=
  String dquote (escape s +:+ String dquote "").

(** The JSON text of a number: non-finite numbers print as [null]. *)
Definition number_json (n : number) : string :=
  match n with
  | NaN | Infinity _ => "null"
  | NegZero => "0"
  | Integer z => pretty z
  end.

Definition join (sep : string) (parts : list string) : string :=
  match parts with
  | [] => ""
  | p :: ps => p +:+ foldr (fun q acc => sep +:+ q +:+ acc) "" ps
  end.

Definition circular : exn := TypeError "Converting circular structure to JSON".

(** The serialisers below run on fuel; [None] means the fuel ran out.  *)
Section Serialize.
Variable SerializeJSONProperty : value -> option (Completion (option string)).

(** The loop of SerializeJSONObject: a property whose value serialises
    to [undefined] is left out. *)
Fixpoint serialize_members (ps : list (string * value))
  : option (Completion (list string)) :=
  match ps with
  | [] => Some (Normal [])
  | (P, v) :: ps =>
      match SerializeJSONProperty v with
      | None => None
      | Some (Throw e) => Some (Throw e)
      | Some (Normal strP) =>
          match serialize_members ps with
          | None => None
          | Some (Throw e) => Some (Throw e)
          | Some (Normal partial) =>
              Some (Normal
                match strP with
                | None => partial
                | Some str => (QuoteJSONString P +:+ ":" +:+ str) :: partial
                end)
          end
      end
  end.

(** The loop of SerializeJSONArray: an element that serialises to
    [undefined] prints as [null]. *)
Fixpoint serialize_elements (es : list value)
  : option (Completion (list string)) :=
  match es with
  | [] => Some (Normal [])
  | v :: es =>
      match SerializeJSONProperty v with
      | None => None
      | Some (Throw e) => Some (Throw e)
      | Some (Normal strP) =>
          match serialize_elements es with
          | None => None
          | Some (Throw e) => Some (Throw e)
          | Some (Normal partial) => Some (Normal (default "null" strP :: partial))
          end
      end
  end.
End Serialize.

Definition wrap (opening closing : string) (r : option (Completion (list string)))
  : option (Completion (option string)) :=
  match r with
  | None => None
  | Some (Throw e) => Some (Throw e)
  | Some (Normal partial) => Some (Normal (Some (opening +:+ join "," partial +:+ closing)))
  end.

(** SerializeJSONProperty (ECMA-262, 25.5.2.2) with no replacer and no gap,
    applied to the value already read from its holder.  [stack] is the list
    of objects being serialised, against which cycles are detected. *)
Fixpoint SerializeJSONProperty (fuel : nat) (h : heap) (stack : list loc) (v : value)
  : option (Completion (option string)) :=
  match v with
  | VUndefined => Some (Normal None)
  | VNull => Some (Normal (Some "null"))
  | VBool true => Some (Normal (Some "true"))
  | VBool false => Some (Normal (Some "false"))
  | VStr s => Some (Normal (Some (QuoteJSONString s)))
  | VNum n => Some (Normal (Some (number_json n)))
  | VRef l =>
      match body_of <$> h !! l with
      | None | Some Callable => Some (Normal None)
      | Some (Props ps) =>
          if bool_decide (l ∈ stack) then Some (Throw circular)
          else match fuel with
               | 0 => None
               | S fuel =>
                   wrap "{" "}" (serialize_members (SerializeJSONProperty fuel h (l :: stack)) ps)
               end
      | Some (Elems es) =>
          if bool_decide (l ∈ stack) then Some (Throw circular)
          else match fuel with
               | 0 => None
               | S fuel =>
                   wrap "[" "]" (serialize_elements (SerializeJSONProperty fuel h (l :: stack)) es)
               end
      end
  end.

(** [JSON.stringify(v)]: a string, [undefined] ([None]) or a thrown
    TypeError.  Every object entered is pushed on the stack and no object is
    entered twice, so one unit of fuel per heap object is enough
    ([JSON_stringify_fuel] below); the last branch is never taken. *)
Definition JSON_stringify (h : heap) (v : value) : Completion (option string) :=
  match SerializeJSONProperty (S (size h)) h [] v with
  | Some c => c
  | None => Throw (Thrown VUndefined)
  end.

(** [v] is the value of an own property, or an element, of the object or
    array at [l]. *)
Definition member (h : heap) (l : loc) (v : value) : Prop :=
  match body_of <$> h !! l with
  | Some (Props ps) => exists P, (P, v) ∈ ps
  | Some (Elems es) => v ∈ es
  | _ => False
  end.

(** A circular structure: going down from [l] through properties and
    elements, one comes back to an object met on the way ([above] lists
    the objects already met). *)
Inductive circular_below (h : heap) : list loc -> loc -> Prop :=
| circular_back above l v :
    l ∈ above -> member h l v -> circular_below h above l
| circular_down above l l' :
    member h l (VRef l') -> circular_below h (l :: above) l' ->
    circular_below h above l.

(** ** Property reads *)

(** [o[k]] (OrdinaryGet): the own property, else the prototype's.  A
    prototype chain is acyclic, so it is no longer than the heap. *)
Fixpoint Get (fuel : nat) (h : heap) (l : loc) (k : string) : value :=
  match h !! l with
  | None => VUndefined
  | Some o =>
      match own_property o k with
      | Some v => v
      | None =>
          match proto o, fuel with
          | Some p, S fuel => Get fuel h p k
          | _, _ => VUndefined
          end
      end
  end.

(** [k in o] *)
Fixpoint HasProperty (fuel : nat) (h : heap) (l : loc) (k : string) : bool :=
  match h !! l with
  | None => false
  | Some o =>
      match own_property o k with
      | Some _ => true
      | None =>
          match proto o, fuel with
          | Some p, S fuel => HasProperty fuel h p k
          | _, _ => false
          end
      end
  end.

(** [v[k]]: reading a property of [undefined] or [null] throws; a primitive
    reads through its wrapper's prototype, which the fragment leaves
    empty. *)
Definition GetV (h : heap) (v : value) (k : string) : Completion value :=
  match v with
  | VUndefined | VNull => Throw (TypeError "Cannot read properties of undefined or null")
  | VRef l => Normal (Get (size h) h l k)
  | _ => Normal VUndefined
  end.

(** ** Effects

    A JavaScript computation runs against a state and either completes
    normally or throws. *)
Definition Eff (S A : Type) : Type := S -> Completion A * S.

Definition ret {S A : Type} (a : A) : Eff S A := fun s => (Normal a, s).

Definition bind {S A B : Type} (m : Eff S A) (k : A -> Eff S B) : Eff S B :=
  fun s =>
    match m s with
    | (Normal a, s') => k a s'
    | (Throw e, s') => (Throw e, s')
    end.

Notation "x <- m ;; k" := (bind m (fun x => k))
  (at level 100, m at next level, right associativity).

(** [try { body } catch (e) { handler }] *)
Definition try_catch {S A : Type} (body : Eff S A) (handler : exn -> Eff S A) : Eff S A :=
  fun s =>
    match body s with
    | (Throw e, s') => handler e s'
    | r => r
    end.

Definition get_state {S : Type} : Eff S S := fun s => (Normal s, s).

Definition put_state {S : Type} (s : S) : Eff S unit := fun _ => (Normal tt, s).

(** Code that only touches the second component of the state. *)
Definition outside {X W A : Type} (m : Eff W A) : Eff (X * W) A :=
  fun s => let '(r, w) := m s.2 in (r, (s.1, w)).

(** Code that only touches the first component. *)
Definition inside {X W A : Type} (m : Eff X A) : Eff (X * W) A :=
  fun s => let '(r, x) := m s.1 in (r, (x, s.2)).

(** [array.map(f)] for an effectful callback, in index order. *)
Fixpoint Array_map {S A B : Type} (f : A -> Eff S B) (xs : list A) : Eff S (list B) :=
  match xs with
  | [] => ret []
  | x :: xs =>
      y <- f x ;;
      ys <- Array_map f xs ;;
      ret (y :: ys)
  end.

(** ** The library *)

(** [type Options = {cached?: boolean, shallowEquality?: boolean,
    deepEquality?: boolean}]; an absent field is [None]. *)
Record Options := {
  cached : option bool;
  shallowEquality : option bool;
  deepEquality : option bool
}.

Definition truthy (flag : option bool) : bool := default false flag.

(** The arrays that [applyInputSelectors] builds stay inside the closure of
    a selector (the combiner receives their elements, by spread), so they
    are kept as lists of values rather than allocated in the heap. *)
Definition array (es : list value) : object := {| body_of := Elems es; proto := None |}.

(** [shallowEqual(newDependencies, dependencies)] where [newDependencies]
    is a fresh array and [dependencies] is [undefined] ([None]) or an older
    array (see [shallowEqual_private_arrays]). *)
Definition shallowEqual_dependencies
    (newDependencies : list value) (dependencies : option (list value)) : bool :=
  match dependencies with
  | None => false
  | Some dependencies => shallowEqual_objects (array newDependencies) (array dependencies)
  end.

(** The variables stored in the closure of a cached selector:
    [let dependencies; let result;]. *)
Record Memo := { dependencies : option (list value); result : value }.

Definition read {S A : Type} (field : S -> A) : Eff S A := fun s => (Normal (field s), s).

Definition set_dependencies (d : option (list value)) : Eff Memo unit :=
  fun vars => (Normal tt, {| dependencies := d; result := result vars |}).

Definition set_result (r : value) : Eff Memo unit :=
  fun vars => (Normal tt, {| dependencies := dependencies vars; result := r |}).

Section Library.
(** The world outside the library: the heap and whatever state the input
    selectors and the combiner keep.  The input selectors and the combiner
    are functions of the world: the variables of the closures of a
    combinator, which the source keeps local to [combineSelectors], are out
    of their reach (they do not call back into the combinator they are
    part of). *)
Context {World : Type} (heapOf : World -> heap).

Definition StateSelector : Type := value -> Eff World value.
Definition ParameterizedSelector : Type := value -> Eff World StateSelector.
Definition Combiner : Type := list value -> Eff World value.

(** The function objects a combined selector hands out: the uncached
    [(state) => ...], whose code runs on the world alone, and the cached
    [selector], whose code also runs on the two variables of its closure,
    kept next to it.  The code is the closure itself: what it captured
    ([inputSelectors], [combiner], [options], [props]) is inside. *)
Inductive closure :=
| Plain (code : value -> Eff World value)
| Memoized (code : value -> Eff (Memo * World) value) (vars : Memo).

(** The state owned by one call of [combineSelectors]: the [selectorCache]
    map, keyed by what [JSON.stringify(props)] returned (a string or
    [undefined]), and the function objects created so far, a function being
    identified by its position in this list. *)
Record Combinator := {
  selectorCache : gmap (option string) nat;
  functions : list closure
}.

(** A freshly built combinator: [new Map()], no selector created yet. *)
Definition new_combinator : Combinator := {| selectorCache := ∅; functions := [] |}.

(** Creating a function object. *)
Definition new_function (c : closure) : Eff Combinator nat :=
  fun s => (Normal (length (functions s)),
            {| selectorCache := selectorCache s; functions := functions s ++ [c] |}).

(** Calling the state-selector [f] on [state]: its code runs, and the
    variables of its closure are updated. *)
Definition call (f : nat) (state : value) : Eff (Combinator * World) value :=
  fun s =>
    match functions s.1 !! f with
    | None => (Throw (TypeError "not a function"), s)
    | Some (Plain code) => outside (code state) s
    | Some (Memoized code vars) =>
        let '(r, (vars', w)) := code state (vars, s.2) in
        (r, ({| selectorCache := selectorCache s.1;
                functions := <[f := Memoized code vars']> (functions s.1) |}, w))
    end.

Definition stringify (v : value) : Eff World (option string) :=
  fun w => (JSON_stringify (heapOf w) v, w).

(**
<<
const deepEqual = (v1, v2) => {
  try { return JSON.stringify(v1) === JSON.stringify(v2); }
  catch (e) { return false; }
};
>> *)
Definition deepEqual (v1 v2 : value) : Eff World bool :=
  try_catch
    (s1 <- stringify v1 ;;
     s2 <- stringify v2 ;;
     ret (bool_decide (s1 = s2)))
    (fun e => ret false).

(**
<<
const checkEqual = (v1, v2, options) => (
  v1 === v2 || (options.shallowEquality && shallowEqual(v1, v2))
            || (options.deepEquality && deepEqual(v1, v2))
);
>>
    The result is the truthiness of the expression. *)
Definition checkEqual (v1 v2 : value) (options : Options) : Eff World bool :=
  if strict_eq v1 v2 then ret true
  else
    shallow <- (if truthy (shallowEquality options)
                then (fun w => (Normal (shallowEqual (heapOf w) v1 v2), w))
                else ret false) ;;
    if shallow then ret true
    else if truthy (deepEquality options) then deepEqual v1 v2
    else ret false.

(** [inputSelectors.map(selector => selector(props)(state))] *)
Definition applyInputSelectors
    (inputSelectors : list ParameterizedSelector) (props state : value)
  : Eff World (list value) :=
  Array_map (fun selector => f <- selector props ;; f state) inputSelectors.

(** [selectArgument(key)(props)] is [() => props[key]]. *)
Definition selectArgument (key : string) : ParameterizedSelector :=
  fun props => ret (fun _ => fun w => (GetV (heapOf w) props key, w)).

(** [selectRoot = () => (state) => state] *)
Definition selectRoot : ParameterizedSelector :=
  fun _ => ret (fun state => ret state).

Section Combine.
(** The three arguments of [combineSelectors]. *)
Variable inputSelectors : list ParameterizedSelector.
Variable combiner : Combiner.
Variable options : Options.

(** The uncached state-selector (lines 100-104). *)
Definition uncached_selector (props state : value) : Eff World value :=
  dependencies <- applyInputSelectors inputSelectors props state ;;
  result <- combiner dependencies ;;
  ret result.

(** The cached [selector] (lines 130-150), over its closure variables
    and the world. *)
Definition selector (props state : value) : Eff (Memo * World) value :=
  newDependencies <- outside (applyInputSelectors inputSelectors props state) ;;
  dependencies0 <- inside (read dependencies) ;;
  if shallowEqual_dependencies newDependencies dependencies0 then
    inside (read result)
  else
    _ <- inside (set_dependencies (Some newDependencies)) ;;
    newResult <- outside (combiner newDependencies) ;;
    result0 <- inside (read result) ;;
    equal <- outside (checkEqual result0 newResult options) ;;
    if equal then inside (read result)
    else
      _ <- inside (set_result newResult) ;;
      inside (read result).

(** The parameterized selector that [combineSelectors(inputSelectors,
    combiner, options)] returns, applied to [props]; its value is the
    state-selector (a function object of this combinator). *)
Definition combineSelectors (props : value) : Eff (Combinator * World) nat :=
  let cached := truthy (cached options) || truthy (shallowEquality options)
                || truthy (deepEquality options) in
  if negb cached then
    inside (new_function (Plain (uncached_selector props)))
  else
    key <- outside (stringify props) ;;
    c <- inside get_state ;;
    match selectorCache c !! key with
    | Some f => ret f
    | None =>
        f <- inside (new_function
                       (Memoized (selector props)
                          {| dependencies := None; result := VUndefined |})) ;;
        c <- inside get_state ;;
        _ <- inside (put_state {| selectorCache := <[key := f]> (selectorCache c);
                                  functions := functions c |}) ;;
        ret f
    end.

(** What can happen to a combinator during the life of the program: it
    is applied to arguments, one of its state-selectors is called, or
    the rest of the program runs and changes the world. *)
Inductive step : Combinator * World -> Combinator * World -> Prop :=
| step_apply props s r s' : combineSelectors props s = (r, s') -> step s s'
| step_call f state s r s' : call f state s = (r, s') -> step s s'
| step_world c w w' : step (c, w) (c, w').
End Combine.

(** The naive composition, in the words of the specification:
    [props => state => combiner(selectStuff1(props)(state),
    selectStuff2(props)(state), ...)].  The arguments are evaluated from
    left to right, then the combiner is called. *)
Fixpoint evaluate_arguments (inputSelectors : list ParameterizedSelector)
    (props state : value) (evaluated : list value) : Eff World (list value) :=
  match inputSelectors with
  | [] => ret evaluated
  | selectStuff :: rest =>
      f <- selectStuff props ;;
      v <- f state ;;
      evaluate_arguments rest props state (evaluated ++ [v])
  end.

Definition naive_composition (inputSelectors : list ParameterizedSelector)
    (combiner : Combiner) (props state : value) : Eff World value :=
  arguments <- evaluate_arguments inputSelectors props state [] ;;
  combiner arguments.
End Library.

Arguments StateSelector World : clear implicits.
Arguments ParameterizedSelector World : clear implicits.
Arguments Combiner World : clear implicits.
Arguments closure World : clear implicits.
Arguments Combinator World : clear implicits.

(** ** Pure readings of the equality checks, used to state the results *)

(** Deep equality, as a predicate on a heap: both serialisations complete
    and give the same result. *)
Definition deep_equal (h : heap) (v1 v2 : value) : bool :=
  match JSON_stringify h v1, JSON_stringify h v2 with
  | Normal s1, Normal s2 => bool_decide (s1 = s2)
  | _, _ => false
  end.

(** The order of the result checks as the specification words it:
    reference equality; then, if [shallowEquality] is set, shallow
    equality; else, if [deepEquality] is set, deep equality. *)
Definition checkEqual_as_specified (h : heap) (v1 v2 : value) (options : Options) : bool :=
  strict_eq v1 v2
  || (if truthy (shallowEquality options) then shallowEqual h v1 v2
      else if truthy (deepEquality options) then deep_equal h v1 v2
      else false).


(** The values of the [Serializable] type of [selectArgument]:
    [string | number | boolean | undefined | null]. *)
Definition Serializable (v : value) : bool :=
  match v with
  | VRef _ => false
  | _ => true
  end.

(** An object one of whose own properties holds a function. *)
Definition holds_function (h : heap) (v : value) : bool :=
  match v with
  | VRef l =>
      match body_of <$> h !! l with
      | Some (Props ps) =>
          existsb (fun kv => bool_decide (typeof h kv.2 = "function")) ps
      | _ => false
      end
  | _ => false
  end.

(** ** A small world to run the library in

    The to-do state of the application, a few argument objects, and
    combiners that count their calls. *)
Module Scenario.
Definition plain (ps : list (string * value)) : object :=
  {| body_of := Props ps; proto := Some 0 |}.

Definition the_heap : heap :=
  list_to_map [
    (* Object.prototype, Array.prototype and a function *)
    (0, {| body_of := Props [("toString", VRef 20); ("constructor", VRef 20)];
           proto := None |});
    (9, {| body_of := Props [("map", VRef 20)]; proto := Some 0 |});
    (20, {| body_of := Callable; proto := Some 0 |});
    (* the state: {todos: {allIds: ["a"], byId: {a: {message: "x", completed: false}}}} *)
    (1, plain [("todos", VRef 2)]);
    (2, plain [("allIds", VRef 3); ("byId", VRef 4)]);
    (3, {| body_of := Elems [VStr "a"]; proto := Some 9 |});
    (4, plain [("a", VRef 5)]);
    (5, plain [("message", VStr "x"); ("completed", VBool false)]);
    (* another state *)
    (6, plain [("todos", VRef 2)]);
    (* argument objects *)
    (10, plain [("todoId", VStr "a")]);
    (11, plain [("todoId", VStr "a")]);
    (12, plain []);
    (13, plain [("todoId", VUndefined)]);
    (14, plain [("callback", VRef 20)]);
    (15, plain [("self", VRef 15)]);
    (16, plain [("a", VStr "1"); ("b", VStr "2")]);
    (17, plain [("b", VStr "2"); ("a", VStr "1")]);
    (* results: two allocations of {a: {b: 1}} and two of ["x"] *)
    (30, plain [("a", VRef 31)]);
    (31, plain [("b", VNum (Integer 1))]);
    (32, plain [("a", VRef 33)]);
    (33, plain [("b", VNum (Integer 1))]);
    (40, {| body_of := Elems [VStr "x"]; proto := Some 9 |});
    (41, {| body_of := Elems [VStr "x"]; proto := Some 9 |})
  ].

(** The world: the heap and the number of calls of the combiner. *)
Definition world : Type := heap * nat.

Definition start : world := (the_heap, 0).

(** A combiner that returns [v] and counts the call. *)
Definition returning (v : value) : Combiner world :=
  fun _ w => (Normal v, (w.1, S w.2)).

(** A combiner that throws and counts the call. *)
Definition failing : Combiner world :=
  fun _ w => (Throw (Thrown (VStr "boom")), (w.1, S w.2)).

Definition no_options : Options :=
  {| cached := None; shallowEquality := None; deepEquality := None |}.
Definition only_cached : Options :=
  {| cached := Some true; shallowEquality := None; deepEquality := None |}.
Definition shallow : Options :=
  {| cached := None; shallowEquality := Some true; deepEquality := None |}.
Definition shallow_and_deep : Options :=
  {| cached := None; shallowEquality := Some true; deepEquality := Some true |}.

(** A selector that has never been read, and one that has. *)
Definition fresh : Memo := {| dependencies := None; result := VUndefined |}.
Definition read_once (state result : value) : Memo :=
  {| dependencies := Some [state]; result := result |}.

(** A combinator over the whole state, before any call. *)
Definition root : list (ParameterizedSelector world) := [selectRoot].
Definition initial : Combinator world * world := (new_combinator, start).

(** A cached combinator: the state after it was applied to the argument
    object at [l], and after its first state-selector was then read on
    the state. *)
Definition applied (l : loc) : Combinator world * world :=
  (combineSelectors fst root (returning (VStr "x")) only_cached (VRef l) initial).2.
Definition applied_and_read (l : loc) : Combinator world * world :=
  (call 0 (VRef 1) (applied l)).2.

End Scenario.

(** ** The application's selectors ([src/store/selectors.ts])

    The selectors of the to-do application only read the heap and allocate
    arrays in it: their world is the heap itself. *)

(** ToBoolean *)
Definition ToBoolean (v : value) : bool :=
  match v with
  | VUndefined | VNull => false
  | VBool b => b
  | VNum NaN | VNum NegZero | VNum (Integer 0) => false
  | VNum _ => true
  | VStr s => negb (bool_decide (s = ""))
  | VRef _ => true
  end.

(** Number::toString on the modelled numbers. *)
Definition number_string (n : number) : string :=
  match n with
  | NaN => "NaN"
  | Infinity false => "Infinity"
  | Infinity true => "-Infinity"
  | NegZero => "0"
  | Integer z => pretty z
  end.

(** ToPropertyKey.  The to-do identifiers are strings, used as they are;
    the other scalars are converted as JavaScript does.  A reference is
    converted through its [toString] method, which the fragment does not
    run: it is given the text of a plain object (arrays and functions used
    as keys are outside the fragment). *)
Definition ToPropertyKey (v : value) : string :=
  match v with
  | VStr s => s
  | VUndefined => "undefined"
  | VNull => "null"
  | VBool true => "true"
  | VBool false => "false"
  | VNum n => number_string n
  | VRef _ => "[object Object]"
  end.

(** [v.k] *)
Definition property (v : value) (k : string) : Eff heap value :=
  fun h => (GetV h v k, h).

(** [v[key]] *)
Definition element (v key : value) : Eff heap value :=
  property v (ToPropertyKey key).

(** The [n]-th parameter of a function called with [args]: [undefined] when
    the call gives fewer. *)
Definition argument (n : nat) (args : list value) : value := nth n args VUndefined.

(** [v] is an object that owns the property [k], with value [v']. *)
Definition field (h : heap) (v : value) (k : string) (v' : value) : Prop :=
  exists l o, v = VRef l /\ h !! l = Some o /\ own_property o k = Some v'.

(** [combineSelectors(inputSelectors, combiner)], without options, where it
    is used as a parameterized selector whose state-selector is called at
    once ([selector(props)(state)]): the state-selector is the uncached
    closure, and creating it has no other effect. *)
Definition combined (inputSelectors : list (ParameterizedSelector heap))
    (combiner : Combiner heap) : ParameterizedSelector heap :=
  fun props => ret (uncached_selector inputSelectors combiner props).

(**
<<
const selectTodos = combineSelectors([selectRoot], (state) => state.todos)
>> *)
Definition selectTodos : ParameterizedSelector heap :=
  combined [selectRoot] (fun args => property (argument 0 args) "todos").

(**
<<
const selectTodo = combineSelectors(
  [selectTodos, selectArgument("todoId")<string>],
  (todos, todoId) => todos.byId[todoId])
>> *)
Definition selectTodo : ParameterizedSelector heap :=
  combined [selectTodos; selectArgument (fun h => h) "todoId"]
    (fun args =>
       byId <- property (argument 0 args) "byId" ;;
       element byId (argument 1 args)).

(**
<<
export const selectTodoIds = combineSelectors([selectTodos], (todos) => todos.allIds)
>> *)
Definition selectTodoIds : ParameterizedSelector heap :=
  combined [selectTodos] (fun args => property (argument 0 args) "allIds").

(**
<<
export const selectTodoMessage = combineSelectors([selectTodo], (todo) => todo.message)
>> *)
Definition selectTodoMessage : ParameterizedSelector heap :=
  combined [selectTodo] (fun args => property (argument 0 args) "message").

(**
<<
export const selectIsTodoCompleted =
  combineSelectors([selectTodo], (todo) => todo.completed)
>> *)
Definition selectIsTodoCompleted : ParameterizedSelector heap :=
  combined [selectTodo] (fun args => property (argument 0 args) "completed").

Section Arrays.
(** Where [Array.prototype] lives. *)
Variable Array_prototype : loc.

(** Allocation, at a location the heap does not use. *)
Definition allocate (o : object) : Eff heap loc :=
  fun h => let l := fresh (dom h) in (Normal l, <[l := o]> h).

(** An array literal [[e1, ..., en]]. *)
Definition new_array (es : list value) : Eff heap value :=
  l <- allocate {| body_of := Elems es; proto := Some Array_prototype |} ;;
  ret (VRef l).

(** Appending [es] to the array at [A]. *)
Definition append (A : loc) (es : list value) : Eff heap unit :=
  fun h =>
    match h !! A with
    | Some o =>
        match body_of o with
        | Elems old =>
            (Normal tt, <[A := {| body_of := Elems (old ++ es); proto := proto o |}]> h)
        | _ => (Normal tt, h)
        end
    | None => (Normal tt, h)
    end.

(** What FlattenIntoArray does at depth 1 with what the mapper returned:
    the elements of an array are appended to the target, anything else is
    appended as it is. *)
Definition append_flattened (A : loc) (r : value) : Eff heap unit :=
  h <- get_state ;;
  match r with
  | VRef lr =>
      match body_of <$> h !! lr with
      | Some (Elems es) => append A es
      | _ => append A [r]
      end
  | _ => append A [r]
  end.

(** FlattenIntoArray (ECMA-262, 23.1.3.13.1) at depth 1 with a mapper: each
    element of the source is mapped, and the result flattened into the
    target. *)
Fixpoint FlattenIntoArray (A : loc) (mapper : value -> Eff heap value)
    (source : list value) : Eff heap unit :=
  match source with
  | [] => ret tt
  | e :: source =>
      r <- mapper e ;;
      _ <- append_flattened A r ;;
      FlattenIntoArray A mapper source
  end.

(** [receiver.flatMap(mapper)]: arrays inherit [flatMap] from
    [Array.prototype], and nothing else in the fragment has one. *)
Definition flatMap (receiver : value) (mapper : value -> Eff heap value)
  : Eff heap value :=
  h <- get_state ;;
  match receiver with
  | VUndefined | VNull =>
      fun h => (Throw (TypeError "Cannot read properties of undefined or null"), h)
  | VRef l =>
      match body_of <$> h !! l with
      | Some (Elems source) =>
          A <- allocate {| body_of := Elems []; proto := Some Array_prototype |} ;;
          _ <- FlattenIntoArray A mapper source ;;
          ret (VRef A)
      | _ => fun h => (Throw (TypeError "flatMap is not a function"), h)
      end
  | _ => fun h => (Throw (TypeError "flatMap is not a function"), h)
  end.

(**
<<
todoId => {
  const {completed, message} = todos.byId[todoId];
  if (completed) { return []; } else { return [message]; }
}
>> *)
Definition incomplete_message (todos todoId : value) : Eff heap value :=
  byId <- property todos "byId" ;;
  todo <- element byId todoId ;;
  completed <- property todo "completed" ;;
  message <- property todo "message" ;;
  if ToBoolean completed then new_array [] else new_array [message].

(** The combiner of [selectIncompleteTodoMessages]:
    [(todos) => todos.allIds.flatMap(todoId => ...)]. *)
Definition incompleteTodoMessages : Combiner heap :=
  fun args =>
    allIds <- property (argument 0 args) "allIds" ;;
    flatMap allIds (incomplete_message (argument 0 args)).

(** [{shallowEquality: true}] *)
Definition shallowEquality_only : Options :=
  {| cached := None; shallowEquality := Some true; deepEquality := None |}.

(**
<<
export const selectIncompleteTodoMessages = combineSelectors(
  [selectTodos], (todos) => todos.allIds.flatMap(...), {shallowEquality: true})
>> *)
Definition selectIncompleteTodoMessages (props : value)
  : Eff (Combinator heap * heap) nat :=
  combineSelectors (fun h => h) [selectTodos] incompleteTodoMessages
    shallowEquality_only props.
End Arrays.

(** The messages of the to-dos listed in [ids] that are not completed, as
    the heap [h] has them under [byId]. *)
Inductive listed (h : heap) (byId : value) : list value -> list value -> Prop :=
| listed_nil : listed h byId [] []
| listed_cons id ids todo completed message messages :
    field h byId (ToPropertyKey id) todo ->
    field h todo "completed" completed ->
    field h todo "message" message ->
    listed h byId ids messages ->
    listed h byId (id :: ids)
      (if ToBoolean completed then messages else message :: messages).


(** ** A second state of the to-do list *)
Module TodoScenario.
Import Scenario.

(** [the_heap] with one more state: the to-do "b", completed, was added. *)
Definition later_heap : heap :=
  <[50 := plain [("todos", VRef 51)]]>
  (<[51 := plain [("allIds", VRef 52); ("byId", VRef 53)]]>
  (<[52 := {| body_of := Elems [VStr "a"; VStr "b"]; proto := Some 9 |}]>
  (<[53 := plain [("a", VRef 5); ("b", VRef 54)]]>
  (<[54 := plain [("message", VStr "y"); ("completed", VBool true)]]> the_heap)))).


Definition deep_only : Options :=
  {| cached := None; shallowEquality := None; deepEquality := Some true |}.

(** The closure of [selectIncompleteTodoMessages({})]. *)
Definition incomplete_code : value -> Eff (Memo * heap) value :=
  selector (fun h => h) [selectTodos] (incompleteTodoMessages 9) shallowEquality_only
    (VRef 12).

(** [selectIncompleteTodoMessages] applied to [{}], in [the_heap]. *)
Definition incomplete_applied : Combinator heap * heap :=
  (selectIncompleteTodoMessages 9 (VRef 12) (new_combinator, the_heap)).2.

(** The same selector after it has returned the array at 40 for the to-do
    list at 2, on a heap [h]. *)
Definition incomplete_holding (h : heap) : Combinator heap * heap :=
  ({| selectorCache := selectorCache incomplete_applied.1;
      functions := [Memoized incomplete_code
                      {| dependencies := Some [VRef 2]; result := VRef 40 |}] |}, h).

(** An input selector that fails: it reads an argument of [undefined]. *)
Definition failing_input : ParameterizedSelector world :=
  fun _ => selectArgument fst "todoId" VUndefined.


(** An uncached combinator applied once. *)
Definition uncached_applied : Combinator world * world :=
  (combineSelectors fst root (returning (VStr "x")) no_options (VRef 12) initial).2.
End TodoScenario.

(** * Properties *)

(** ** The equality strategies *)

(** react-redux's [is] is SameValue: NaN is itself, the two zeros differ. *)
Lemma Object_is_spec (x y : value) : Object_is x y = bool_decide (x = y).
Proof.
  unfold Object_is.
  destruct x as [| |a|a|a|a], y as [| |b|b|b|b]; simpl; try done;
    try (rewrite ?bool_decide_eq_true_2 by done; simpl; by rewrite ?andb_false_r).
  - by destruct a, b.
  - destruct a as [|[]| |[]], b as [|[]| |[]]; simpl; try done;
      repeat (case_bool_decide; simplify_eq; simpl; try done).
  - repeat (case_bool_decide; simplify_eq; simpl; try done).
  - repeat (case_bool_decide; simplify_eq; simpl; try done).
Qed.

Lemma Object_is_true (x y : value) : Object_is x y = true <-> x = y.
Proof. rewrite Object_is_spec. apply bool_decide_eq_true. Qed.

Lemma Object_is_refl (x : value) : Object_is x x = true.
Proof. by apply Object_is_true. Qed.

(** *** Shallow equality of two arrays *)

Lemma index_keys_length (n : nat) : length (index_keys n) = n.
Proof. unfold index_keys. by rewrite length_fmap, length_seq. Qed.

Lemma Object_keys_array (es : list value) :
  Object_keys (array es) = index_keys (length es).
Proof.
  unfold Object_keys, own_enumerable; simpl.
  apply fst_zip. by rewrite index_keys_length.
Qed.

Lemma assoc_index (es : list value) (a i : nat) :
  i < length es ->
  assoc (pretty (a + i)) (zip (pretty <$> seq a (length es)) es) = es !! i.
Proof.
  revert a i. induction es as [|x es IH]; intros a i Hi; simpl in *; [lia|].
  destruct i as [|i]; simpl.
  - rewrite Nat.add_0_r. by rewrite bool_decide_eq_true_2.
  - rewrite bool_decide_eq_false_2.
    + replace (a + S i) with (S a + i) by lia. apply IH. lia.
    + intros Heq. apply (inj pretty) in Heq. lia.
Qed.

Lemma own_property_array_index (es : list value) (i : nat) :
  i < length es -> own_property (array es) (pretty i) = es !! i.
Proof.
  intros Hi. unfold own_property, own_enumerable, index_keys; simpl.
  pose proof (assoc_index es 0 i Hi) as Hassoc. simpl in Hassoc. rewrite Hassoc.
  destruct (lookup_lt_is_Some_2 es i Hi) as [v Hv]. by rewrite Hv.
Qed.

Lemma forallb_index_keys (f : string -> bool) (n : nat) :
  forallb f (index_keys n) = true <-> forall i, i < n -> f (pretty i) = true.
Proof.
  unfold index_keys. rewrite forallb_forall. split.
  - intros H i Hi. apply H. apply in_map, in_seq. lia.
  - intros H k Hk. apply in_map_iff in Hk as (i & <- & Hi).
    apply in_seq in Hi. apply H. lia.
Qed.

(** Two arrays are shallow-equal exactly when they have the same length and
    the same elements, position by position, up to [is]. *)
Lemma shallowEqual_arrays (es1 es2 : list value) :
  shallowEqual_objects (array es1) (array es2) = true <-> es1 = es2.
Proof.
  unfold shallowEqual_objects. rewrite !Object_keys_array, !index_keys_length.
  split.
  - case_bool_decide as Hlen; simpl; [|done].
    rewrite forallb_index_keys. intros H.
    apply list_eq. intros i.
    destruct (decide (i < length es1)) as [Hi|Hi].
    + specialize (H i Hi). apply andb_true_iff in H as [_ H].
      unfold own_get in H.
      rewrite !own_property_array_index in H by lia.
      destruct (lookup_lt_is_Some_2 es1 i Hi) as [v1 Hv1].
      destruct (lookup_lt_is_Some_2 es2 i ltac:(lia)) as [v2 Hv2].
      rewrite Hv1, Hv2 in *. simpl in H. apply Object_is_true in H. by subst.
    + rewrite !lookup_ge_None_2 by lia. done.
  - intros <-. rewrite bool_decide_eq_true_2 by done. simpl.
    apply forallb_index_keys. intros i Hi.
    unfold hasOwnProperty, own_get.
    rewrite own_property_array_index by done.
    destruct (lookup_lt_is_Some_2 es1 i Hi) as [v Hv]. rewrite Hv. simpl.
    apply Object_is_refl.
Qed.

(** The dependency check succeeds exactly on an initialised selector whose
    stored sequence has the same length and the same elements. *)
Lemma shallowEqual_dependencies_spec (new : list value) (old : option (list value)) :
  shallowEqual_dependencies new old = true <-> old = Some new.
Proof.
  destruct old as [old|]; simpl; [|done].
  rewrite shallowEqual_arrays. split; congruence.
Qed.

Lemma shallowEqual_objects_body (a a' b b' : object) :
  body_of a = body_of a' -> body_of b = body_of b' ->
  shallowEqual_objects a b = shallowEqual_objects a' b'.
Proof.
  intros Ha Hb.
  unfold shallowEqual_objects, Object_keys, hasOwnProperty, own_get, own_property,
    own_enumerable.
  by rewrite Ha, Hb.
Qed.

(** Keeping the dependency arrays out of the heap loses nothing: had they
    been allocated, at two different locations, [shallowEqual] would answer
    the same; and against [undefined] it answers [false]. *)
Lemma shallowEqual_private_arrays (h : heap) (la lb : loc) (oa ob : object)
    (new old : list value) :
  h !! la = Some oa -> body_of oa = Elems new ->
  h !! lb = Some ob -> body_of ob = Elems old ->
  la <> lb ->
  shallowEqual h (VRef la) (VRef lb) = shallowEqual_dependencies new (Some old)
  /\ shallowEqual h (VRef la) VUndefined = shallowEqual_dependencies new None.
Proof.
  intros Ha Hba Hb Hbb Hne. unfold shallowEqual. rewrite !Object_is_spec.
  rewrite !bool_decide_eq_false_2 by congruence.
  simpl. rewrite Ha, Hb. simpl. rewrite Hba, Hbb. simpl.
  split; [|done].
  by apply shallowEqual_objects_body.
Qed.

(** ** [JSON.stringify] never runs out of fuel *)

Lemma serialize_members_total (rec : value -> option (Completion (option string))) ps :
  (forall v, is_Some (rec v)) -> is_Some (serialize_members rec ps).
Proof.
  intros Hrec. induction ps as [|[P v] ps IH]; simpl; [eauto|].
  destruct (Hrec v) as [[strP|e] ->]; [|eauto].
  destruct IH as [[partial|e] ->]; eauto.
Qed.

Lemma serialize_elements_total (rec : value -> option (Completion (option string))) es :
  (forall v, is_Some (rec v)) -> is_Some (serialize_elements rec es).
Proof.
  intros Hrec. induction es as [|v es IH]; simpl; [eauto|].
  destruct (Hrec v) as [[strP|e] ->]; [|eauto].
  destruct IH as [[partial|e] ->]; eauto.
Qed.

Lemma wrap_total opening closing r : is_Some r -> is_Some (wrap opening closing r).
Proof. intros [[partial|e] ->]; simpl; eauto. Qed.

(** The objects being serialised are distinct heap objects, so there are no
    more of them than the heap holds. *)
Lemma stack_bound (h : heap) (stack : list loc) :
  NoDup stack -> (forall l, l ∈ stack -> is_Some (h !! l)) -> length stack <= size h.
Proof.
  intros Hnd Hin.
  rewrite <- (size_dom (D := gset nat)).
  rewrite <- (size_list_to_set (C := gset nat) stack Hnd).
  apply subseteq_size. intros l Hl.
  apply elem_of_list_to_set in Hl. apply elem_of_dom. auto.
Qed.

Lemma SerializeJSONProperty_total (fuel : nat) (h : heap) (stack : list loc) (v : value) :
  NoDup stack ->
  (forall l, l ∈ stack -> is_Some (h !! l)) ->
  size h < fuel + length stack ->
  is_Some (SerializeJSONProperty fuel h stack v).
Proof.
  revert stack v. induction fuel as [|fuel IH]; intros stack v Hnd Hin Hfuel.
  - pose proof (stack_bound h stack Hnd Hin). lia.
  - destruct v as [| |[]|n|s|l]; simpl; eauto.
    destruct (h !! l) as [o|] eqn:Hl; simpl; [|eauto].
    assert (l ∉ stack ->
            forall v, is_Some (SerializeJSONProperty fuel h (l :: stack) v)) as Hrec.
    { intros Hfresh v. apply IH.
      - by constructor.
      - intros l' [->|Hl']%elem_of_cons; eauto.
      - simpl. lia. }
    destruct (body_of o) as [ps|es|]; [| |eauto].
    + case_bool_decide; [eauto|].
      apply wrap_total, serialize_members_total; auto.
    + case_bool_decide; [eauto|].
      apply wrap_total, serialize_elements_total; auto.
Qed.

(** One unit of fuel per heap object, plus one, is always enough: the
    fallback branch of [JSON_stringify] is dead. *)
Lemma JSON_stringify_fuel (h : heap) (v : value) :
  SerializeJSONProperty (S (size h)) h [] v = Some (JSON_stringify h v).
Proof.
  unfold JSON_stringify.
  destruct (SerializeJSONProperty_total (S (size h)) h [] v) as [c ->]; try done.
  - constructor.
  - intros l Hl. by apply elem_of_nil in Hl.
  - simpl. lia.
Qed.

(** ** What [JSON.stringify] throws, and what it leaves out *)

(** The only error is the one for a circular structure. *)
Lemma serialize_members_throws rec ps e :
  (forall v e, rec v = Some (Throw e) -> e = circular) ->
  serialize_members rec ps = Some (Throw e) -> e = circular.
Proof.
  intros Hrec. induction ps as [|[P v] ps IH]; simpl; [done|].
  destruct (rec v) as [[strP|e']|] eqn:Hv; [| |done].
  - destruct (serialize_members rec ps) as [[partial|e']|]; [done| |done].
    intros ?; simplify_eq. by apply IH.
  - intros ?; simplify_eq. by eapply Hrec.
Qed.

Lemma serialize_elements_throws rec es e :
  (forall v e, rec v = Some (Throw e) -> e = circular) ->
  serialize_elements rec es = Some (Throw e) -> e = circular.
Proof.
  intros Hrec. induction es as [|v es IH]; simpl; [done|].
  destruct (rec v) as [[strP|e']|] eqn:Hv; [| |done].
  - destruct (serialize_elements rec es) as [[partial|e']|]; [done| |done].
    intros ?; simplify_eq. by apply IH.
  - intros ?; simplify_eq. by eapply Hrec.
Qed.

Lemma wrap_throws opening closing r e :
  wrap opening closing r = Some (Throw e) -> r = Some (Throw e).
Proof. destruct r as [[partial|e']|]; simpl; congruence. Qed.

Lemma SerializeJSONProperty_throws fuel h stack v e :
  SerializeJSONProperty fuel h stack v = Some (Throw e) -> e = circular.
Proof.
  revert stack v e. induction fuel as [|fuel IH]; intros stack v e;
    (destruct v as [| |[]|n|s|l]; simpl; try done);
    (destruct (h !! l) as [o|]; simpl; [|done]);
    (destruct (body_of o) as [ps|es|]; [| |done]);
    (case_bool_decide; [congruence|]); try done.
  - intros Hw%wrap_throws. eapply serialize_members_throws; [|done]. eauto.
  - intros Hw%wrap_throws. eapply serialize_elements_throws; [|done]. eauto.
Qed.

Lemma JSON_stringify_throws h v e : JSON_stringify h v = Throw e -> e = circular.
Proof.
  intros H. pose proof (JSON_stringify_fuel h v) as Hfuel. rewrite H in Hfuel.
  by eapply SerializeJSONProperty_throws.
Qed.

(** If one member can only throw, so can the object. *)
Lemma serialize_members_throw_member rec ps P v c :
  (forall v e, rec v = Some (Throw e) -> e = circular) ->
  (P, v) ∈ ps -> (forall c, rec v = Some c -> c = Throw circular) ->
  serialize_members rec ps = Some c -> c = Throw circular.
Proof.
  intros Hrec Hin Hv. revert c. induction ps as [|[P' v'] ps IH]; intros c; simpl.
  - by apply elem_of_nil in Hin.
  - destruct (rec v') as [[strP|e']|] eqn:Hv'; [| |done].
    + apply elem_of_cons in Hin as [Heq|Hin].
      { simplify_eq.
        match goal with
        | Hn : rec _ = Some (Normal _) |- _ => apply Hv in Hn; simplify_eq
        end. }
      destruct (serialize_members rec ps) as [[partial|e']|]; [| |done].
      * by specialize (IH Hin _ eq_refl).
      * specialize (IH Hin _ eq_refl). simplify_eq. congruence.
    + intros ?; simplify_eq. f_equal. by eapply Hrec.
Qed.

Lemma serialize_elements_throw_member rec es v c :
  (forall v e, rec v = Some (Throw e) -> e = circular) ->
  v ∈ es -> (forall c, rec v = Some c -> c = Throw circular) ->
  serialize_elements rec es = Some c -> c = Throw circular.
Proof.
  intros Hrec Hin Hv. revert c. induction es as [|v' es IH]; intros c; simpl.
  - by apply elem_of_nil in Hin.
  - destruct (rec v') as [[strP|e']|] eqn:Hv'; [| |done].
    + apply elem_of_cons in Hin as [Heq|Hin].
      { simplify_eq.
        match goal with
        | Hn : rec _ = Some (Normal _) |- _ => apply Hv in Hn; simplify_eq
        end. }
      destruct (serialize_elements rec es) as [[partial|e']|]; [| |done].
      * by specialize (IH Hin _ eq_refl).
      * specialize (IH Hin _ eq_refl). simplify_eq. congruence.
    + intros ?; simplify_eq. f_equal. by eapply Hrec.
Qed.

Lemma wrap_throw_only opening closing r c :
  (forall c', r = Some c' -> c' = Throw circular) ->
  wrap opening closing r = Some c -> c = Throw circular.
Proof.
  intros Hr. destruct r as [c'|]; [|done].
  rewrite (Hr c' eq_refl). simpl. congruence.
Qed.

(** Serialising a circular structure can only throw... *)
Lemma circular_below_throws (h : heap) above l :
  circular_below h above l ->
  forall fuel c, SerializeJSONProperty fuel h above (VRef l) = Some c ->
                 c = Throw circular.
Proof.
  induction 1 as [above l v Hin Hmem|above l l' Hmem _ IH]; intros fuel c.
  - unfold member in Hmem. destruct fuel; simpl;
      destruct (body_of <$> h !! l) as [[ps|es|]|]; try done;
      (case_bool_decide; [congruence|done]).
  - unfold member in Hmem. destruct fuel as [|fuel]; simpl;
      (destruct (body_of <$> h !! l) as [[ps|es|]|]; try done);
      (case_bool_decide; [congruence|]); try done.
    + destruct Hmem as [P Hin].
      apply wrap_throw_only. intros c'.
      apply (serialize_members_throw_member _ ps P (VRef l')); [|done|by apply IH].
      intros v e. apply SerializeJSONProperty_throws.
    + apply wrap_throw_only. intros c'.
      apply (serialize_elements_throw_member _ es (VRef l')); [|done|by apply IH].
      intros v e. apply SerializeJSONProperty_throws.
Qed.

(** ... and, the fuel being enough, it does. *)
Lemma circular_structure_throws (h : heap) l :
  circular_below h [] l -> JSON_stringify h (VRef l) = Throw circular.
Proof.
  intros Hcirc. eapply circular_below_throws; [done|]. apply JSON_stringify_fuel.
Qed.

(** The shortest cycle: an object one of whose properties is the object
    itself. *)
Lemma self_reference_circular (h : heap) l o ps P :
  h !! l = Some o -> body_of o = Props ps -> (P, VRef l) ∈ ps ->
  circular_below h [] l.
Proof.
  intros Hl Hbody Hin.
  assert (member h l (VRef l)) as Hmem.
  { unfold member. rewrite Hl. simpl. rewrite Hbody. eauto. }
  apply (circular_down h [] l l Hmem).
  apply (circular_back h [l] l (VRef l)); [apply list_elem_of_here|done].
Qed.

(** A scalar serialises the same whatever the fuel, heap and stack. *)
Lemma SerializeJSONProperty_scalar fuel h stack v :
  Serializable v = true ->
  SerializeJSONProperty fuel h stack v = SerializeJSONProperty 0 ∅ [] v.
Proof. by destruct fuel, v as [| |[]| | |]. Qed.

Lemma serialize_members_scalars fuel h stack ps :
  Forall (fun kv => Serializable kv.2 = true) ps ->
  serialize_members (SerializeJSONProperty fuel h stack) ps
  = serialize_members (SerializeJSONProperty 0 ∅ []) ps.
Proof.
  induction 1 as [|[P v] ps Hv _ IH]; simpl; [done|].
  by rewrite (SerializeJSONProperty_scalar fuel h stack v Hv), IH.
Qed.

(** Properties bound to [undefined] leave no trace in the encoding. *)
Lemma serialize_members_undefined rec ps :
  rec VUndefined = Some (Normal None) ->
  serialize_members rec ps
  = serialize_members rec (filter (fun kv => kv.2 <> VUndefined) ps).
Proof.
  intros Hrec. induction ps as [|[P v] ps IH]; [done|].
  destruct (decide (v = VUndefined)) as [->|Hv].
  - rewrite filter_cons_False by (simpl; tauto). simpl. rewrite Hrec, <- IH.
    by destruct (serialize_members rec ps) as [[]|].
  - rewrite filter_cons_True by done. simpl. by rewrite IH.
Qed.

(** The encoding of a flat argument set: it is made of the properties not
    bound to [undefined], in enumeration order, and does not depend on
    where the object lives. *)
Lemma JSON_stringify_flat (h : heap) l o ps :
  h !! l = Some o -> body_of o = Props ps ->
  Forall (fun kv => Serializable kv.2 = true) ps ->
  Some (JSON_stringify h (VRef l))
  = wrap "{" "}" (serialize_members (SerializeJSONProperty 0 ∅ [])
                    (filter (fun kv => kv.2 <> VUndefined) ps)).
Proof.
  intros Hl Hbody Hflat. rewrite <- JSON_stringify_fuel. simpl.
  rewrite Hl. simpl. rewrite Hbody. simpl.
  rewrite serialize_members_scalars by done.
  by rewrite <- serialize_members_undefined.
Qed.

(** A scalar or a function never makes the encoding fail. *)
Lemma SerializeJSONProperty_leaf fuel (h : heap) stack v :
  Serializable v = true \/ typeof h v = "function" ->
  exists strP, SerializeJSONProperty fuel h stack v = Some (Normal strP).
Proof.
  intros [Hv|Hv].
  - destruct fuel, v as [| |[]| | |]; simpl; eauto; done.
  - destruct v as [| |b|n|s|l]; try done. simpl in Hv.
    destruct fuel; simpl; destruct (body_of <$> h !! l) as [[ps|es|]|]; try done; eauto.
Qed.

Lemma serialize_members_leaves fuel (h : heap) stack ps :
  Forall (fun kv => Serializable kv.2 = true \/ typeof h kv.2 = "function") ps ->
  exists partial,
    serialize_members (SerializeJSONProperty fuel h stack) ps = Some (Normal partial).
Proof.
  induction 1 as [|[P v] ps Hv _ [partial IH]]; simpl; [eauto|].
  destruct (SerializeJSONProperty_leaf fuel h stack v Hv) as [strP ->].
  rewrite IH. eauto.
Qed.

(** An argument object whose values are scalars or functions has an
    encoding. *)
Lemma JSON_stringify_leaves (h : heap) l o ps :
  h !! l = Some o -> body_of o = Props ps ->
  Forall (fun kv => Serializable kv.2 = true \/ typeof h kv.2 = "function") ps ->
  exists key, JSON_stringify h (VRef l) = Normal key.
Proof.
  intros Hl Hbody Hleaves.
  pose proof (JSON_stringify_fuel h (VRef l)) as Hfuel. simpl in Hfuel.
  rewrite Hl in Hfuel. simpl in Hfuel. rewrite Hbody in Hfuel. simpl in Hfuel.
  destruct (serialize_members_leaves (size h) h [l] ps Hleaves) as [partial Hmem].
  rewrite Hmem in Hfuel. simpl in Hfuel. simplify_eq. eauto.
Qed.

(** A flat argument set always has an encoding. *)
Lemma serialize_members_complete rec ps :
  (forall v, exists strP, rec v = Some (Normal strP)) ->
  exists partial, serialize_members rec ps = Some (Normal partial).
Proof.
  intros Hrec. induction ps as [|[P v] ps [partial IH]]; simpl; [eauto|].
  destruct (Hrec v) as [strP ->]. rewrite IH. eauto.
Qed.

Lemma flat_members_complete ps :
  exists partial,
    serialize_members (SerializeJSONProperty 0 ∅ []) ps = Some (Normal partial).
Proof.
  apply serialize_members_complete.
  intros [| |[]|n|s|l]; simpl; eauto.
Qed.

Lemma JSON_stringify_flat_complete (h : heap) l o ps :
  h !! l = Some o -> body_of o = Props ps ->
  Forall (fun kv => Serializable kv.2 = true) ps ->
  exists key, JSON_stringify h (VRef l) = Normal key.
Proof.
  intros Hl Hbody Hflat.
  pose proof (JSON_stringify_flat h l o ps Hl Hbody Hflat) as Henc.
  destruct (flat_members_complete (filter (fun kv => kv.2 <> VUndefined) ps))
    as [partial Hmem].
  rewrite Hmem in Henc. simpl in Henc. simplify_eq. eauto.
Qed.

(** ** The library *)

Section Properties.
Context {World : Type} (heapOf : World -> heap).

Implicit Types (w : World) (vars : Memo) (props state : value).
Implicit Types (inputSelectors : list (ParameterizedSelector World)).
Implicit Types (combiner : Combiner World) (options : Options).

(** *** The equality checks complete and leave the world alone *)

Lemma deepEqual_run (v1 v2 : value) w :
  deepEqual heapOf v1 v2 w = (Normal (deep_equal (heapOf w) v1 v2), w).
Proof.
  unfold deepEqual, try_catch, bind, stringify, ret, deep_equal.
  destruct (JSON_stringify (heapOf w) v1); [|done].
  by destruct (JSON_stringify (heapOf w) v2).
Qed.

Lemma checkEqual_run (v1 v2 : value) options w :
  checkEqual heapOf v1 v2 options w =
    (Normal (strict_eq v1 v2
             || truthy (shallowEquality options) && shallowEqual (heapOf w) v1 v2
             || truthy (deepEquality options) && deep_equal (heapOf w) v1 v2), w).
Proof.
  unfold checkEqual, bind, ret.
  destruct (strict_eq v1 v2); [done|]. simpl.
  destruct (truthy (shallowEquality options)); simpl.
  - destruct (shallowEqual (heapOf w) v1 v2); [done|]. simpl.
    destruct (truthy (deepEquality options)); [|done]. apply deepEqual_run.
  - destruct (truthy (deepEquality options)); [|done]. apply deepEqual_run.
Qed.

(** *** One read of a cached selector, case by case *)

Lemma selector_hit inputSelectors combiner options props state vars w newDeps w1 :
  applyInputSelectors inputSelectors props state w = (Normal newDeps, w1) ->
  shallowEqual_dependencies newDeps (dependencies vars) = true ->
  selector heapOf inputSelectors combiner options props state (vars, w)
  = (Normal (result vars), (vars, w1)).
Proof.
  intros Hdeps Heq. unfold selector, bind, outside, inside, read. simpl.
  rewrite Hdeps. simpl. by rewrite Heq.
Qed.

Lemma selector_throw inputSelectors combiner options props state vars w newDeps w1 e w2 :
  applyInputSelectors inputSelectors props state w = (Normal newDeps, w1) ->
  shallowEqual_dependencies newDeps (dependencies vars) = false ->
  combiner newDeps w1 = (Throw e, w2) ->
  selector heapOf inputSelectors combiner options props state (vars, w)
  = (Throw e, ({| dependencies := Some newDeps; result := result vars |}, w2)).
Proof.
  intros Hdeps Hne Hcomb.
  unfold selector, bind, outside, inside, read, set_dependencies. simpl.
  rewrite Hdeps. simpl. rewrite Hne. simpl. by rewrite Hcomb.
Qed.

(** C1. On a read of a cached selector that is initialised and whose
    newly evaluated dependencies are shallow-equal to the stored ones
    (same length, each element the same up to [is]), the stored result
    is returned and the closure variables are unchanged; the world is
    the one the input selectors left.  This holds for every combiner and
    every set of options, neither of which the outcome mentions: the
    combiner is not called and no result check is made. *)
Theorem cached_read_returns_stored_result
    inputSelectors props state vars (old : list value) w newDeps w1 :
  dependencies vars = Some old ->
  applyInputSelectors inputSelectors props state w = (Normal newDeps, w1) ->
  shallowEqual_dependencies newDeps (Some old) = true ->
  forall combiner options,
    selector heapOf inputSelectors combiner options props state (vars, w)
    = (Normal (result vars), (vars, w1)).
Proof.
  intros Hinit Hdeps Heq combiner options.
  eapply selector_hit; [done|]. by rewrite Hinit.
Qed.

(** C4 (as the code has it). On a read of a cached selector whose
    dependencies changed and whose combiner returned [newResult], the
    previous result is compared with [newResult] by reference equality,
    then by shallow equality if [shallowEquality] is set, then by deep
    equality if [deepEquality] is set, whether or not [shallowEquality]
    is.  If one of the checks made passes, the previous result is
    returned and stays stored; otherwise [newResult] is stored and
    returned.  Either way the new dependencies are stored. *)
Theorem cached_read_result_check
    inputSelectors combiner options props state vars w newDeps w1 newResult w2 :
  applyInputSelectors inputSelectors props state w = (Normal newDeps, w1) ->
  shallowEqual_dependencies newDeps (dependencies vars) = false ->
  combiner newDeps w1 = (Normal newResult, w2) ->
  selector heapOf inputSelectors combiner options props state (vars, w)
  = if strict_eq (result vars) newResult
       || truthy (shallowEquality options)
          && shallowEqual (heapOf w2) (result vars) newResult
       || truthy (deepEquality options)
          && deep_equal (heapOf w2) (result vars) newResult
    then (Normal (result vars),
          ({| dependencies := Some newDeps; result := result vars |}, w2))
    else (Normal newResult,
          ({| dependencies := Some newDeps; result := newResult |}, w2)).
Proof.
  intros Hdeps Hne Hcomb.
  unfold selector, bind, outside, inside, read, set_dependencies, set_result. simpl.
  rewrite Hdeps. simpl. rewrite Hne. simpl. rewrite Hcomb. simpl.
  rewrite checkEqual_run.
  by destruct (_ || _ || _).
Qed.

(** C9. A cached read is not atomic with respect to a failing combiner:
    when the dependencies changed and the combiner throws, the read
    throws with the new dependencies already stored and the result left
    as it was.  A later read whose dependencies are, one by one, the
    same as those then returns that stale result (whatever the combiner
    is: it is not called again). *)
Theorem combiner_failure_leaves_stale_result
    inputSelectors combiner options props state vars w newDeps w1 e w2 :
  applyInputSelectors inputSelectors props state w = (Normal newDeps, w1) ->
  shallowEqual_dependencies newDeps (dependencies vars) = false ->
  combiner newDeps w1 = (Throw e, w2) ->
  let vars' := {| dependencies := Some newDeps; result := result vars |} in
  selector heapOf inputSelectors combiner options props state (vars, w)
  = (Throw e, (vars', w2))
  /\ forall state' w' newDeps' w1' combiner',
      applyInputSelectors inputSelectors props state' w' = (Normal newDeps', w1') ->
      Forall2 (fun new old => Object_is new old = true) newDeps' newDeps ->
      selector heapOf inputSelectors combiner' options props state' (vars', w')
      = (Normal (result vars), (vars', w1')).
Proof.
  intros Hdeps Hne Hcomb vars'. split.
  - by eapply selector_throw.
  - intros state' w' newDeps' w1' combiner' Hdeps' Hsame.
    change (result vars) with (result vars').
    eapply selector_hit; [done|].
    apply shallowEqual_dependencies_spec. simpl. f_equal.
    symmetry. apply list_eq_Forall2.
    eapply Forall2_impl; [done|]. intros a b. apply Object_is_true.
Qed.

(** *** Applying a combined selector to arguments *)

Section Combinator.
Variable inputSelectors : list (ParameterizedSelector World).
Variable combiner : Combiner World.
Variable options : Options.

Local Abbreviation apply := (combineSelectors heapOf inputSelectors combiner options).
Local Abbreviation is_cached :=
  (truthy (cached options) || truthy (shallowEquality options)
   || truthy (deepEquality options)).

Lemma apply_uncached props (s : Combinator World * World) :
  is_cached = false ->
  apply props s
  = (Normal (length (functions s.1)),
     ({| selectorCache := selectorCache s.1;
         functions := functions s.1
                      ++ [Plain (uncached_selector inputSelectors combiner props)] |},
      s.2)).
Proof.
  intros Hc. unfold combineSelectors. rewrite Hc. by destruct s.
Qed.

Lemma apply_throw props (s : Combinator World * World) e :
  is_cached = true ->
  JSON_stringify (heapOf s.2) props = Throw e ->
  apply props s = (Throw e, s).
Proof.
  intros Hc Hkey. unfold combineSelectors. rewrite Hc. simpl.
  unfold bind, outside, stringify. rewrite Hkey. by destruct s.
Qed.

Lemma apply_hit props (s : Combinator World * World) key f :
  is_cached = true ->
  JSON_stringify (heapOf s.2) props = Normal key ->
  selectorCache s.1 !! key = Some f ->
  apply props s = (Normal f, s).
Proof.
  intros Hc Hkey Hf. unfold combineSelectors. rewrite Hc. simpl.
  unfold bind, outside, inside, stringify, get_state. rewrite Hkey. simpl.
  rewrite Hf. by destruct s.
Qed.

Lemma apply_new props (s : Combinator World * World) key :
  is_cached = true ->
  JSON_stringify (heapOf s.2) props = Normal key ->
  selectorCache s.1 !! key = None ->
  apply props s
  = (Normal (length (functions s.1)),
     ({| selectorCache := <[key := length (functions s.1)]> (selectorCache s.1);
         functions := functions s.1
                      ++ [Memoized
                            (selector heapOf inputSelectors combiner options props)
                            {| dependencies := None; result := VUndefined |}] |},
      s.2)).
Proof.
  intros Hc Hkey Hf. unfold combineSelectors. rewrite Hc. simpl.
  unfold bind, outside, inside, stringify, get_state, put_state, new_function.
  rewrite Hkey. simpl. rewrite Hf. by destruct s.
Qed.

(** Whatever the call does, the key of [props] is in the cache once the
    call has returned normally. *)
Lemma apply_caches props (s s' : Combinator World * World) key f :
  is_cached = true ->
  JSON_stringify (heapOf s.2) props = Normal key ->
  apply props s = (Normal f, s') ->
  selectorCache s'.1 !! key = Some f.
Proof.
  intros Hc Hkey Happ.
  destruct (selectorCache s.1 !! key) as [f'|] eqn:Hf.
  - rewrite (apply_hit _ _ _ _ Hc Hkey Hf) in Happ. by simplify_eq.
  - rewrite (apply_new _ _ _ Hc Hkey Hf) in Happ. simplify_eq. simpl.
    apply lookup_insert_eq.
Qed.

Lemma call_selectorCache f state (s s' : Combinator World * World) r :
  call f state s = (r, s') ->
  selectorCache s'.1 = selectorCache s.1.
Proof.
  unfold call. intros Hcall.
  destruct (functions s.1 !! f) as [[code|code vars]|]; [| |by simplify_eq].
  - unfold outside in Hcall.
    destruct (code state s.2) as [r' w'] in Hcall. by simplify_eq.
  - destruct (code state (vars, s.2)) as [r' [vars' w']] in Hcall.
    by simplify_eq.
Qed.

(** An entry of the cache is never replaced nor removed. *)
Lemma step_keeps_entry (s s' : Combinator World * World) key f :
  step heapOf inputSelectors combiner options s s' ->
  selectorCache s.1 !! key = Some f ->
  selectorCache s'.1 !! key = Some f.
Proof.
  intros Hstep Hf. destruct Hstep as [props s r s' Happ|g state s r s' Hcall|c w w'].
  - destruct is_cached eqn:Hc.
    + destruct (JSON_stringify (heapOf s.2) props) as [key'|e] eqn:Hkey.
      * destruct (selectorCache s.1 !! key') as [f'|] eqn:Hf'.
        -- rewrite (apply_hit _ _ _ _ Hc Hkey Hf') in Happ. by simplify_eq.
        -- rewrite (apply_new _ _ _ Hc Hkey Hf') in Happ. simplify_eq. simpl.
           rewrite lookup_insert_ne; [done|]. congruence.
      * rewrite (apply_throw _ _ _ Hc Hkey) in Happ. by simplify_eq.
    + rewrite (apply_uncached _ _ Hc) in Happ. by simplify_eq.
  - by rewrite (call_selectorCache _ _ _ _ _ Hcall).
  - done.
Qed.

Lemma steps_keep_entry (s s' : Combinator World * World) key f :
  rtc (step heapOf inputSelectors combiner options) s s' ->
  selectorCache s.1 !! key = Some f ->
  selectorCache s'.1 !! key = Some f.
Proof.
  induction 1 as [|s s1 s' Hstep _ IH]; [done|].
  intros Hf. apply IH. by eapply step_keeps_entry.
Qed.

(** A function keeps its code; only the variables of its closure change. *)
Lemma step_keeps_closure (s s' : Combinator World * World) f code vars :
  step heapOf inputSelectors combiner options s s' ->
  functions s.1 !! f = Some (Memoized code vars) ->
  exists vars', functions s'.1 !! f = Some (Memoized code vars').
Proof.
  intros Hstep Hf. destruct Hstep as [props s r s' Happ|g state s r s' Hcall|c w w'].
  - exists vars. destruct is_cached eqn:Hc.
    + destruct (JSON_stringify (heapOf s.2) props) as [key|e] eqn:Hkey.
      * destruct (selectorCache s.1 !! key) as [f'|] eqn:Hf'.
        -- rewrite (apply_hit _ _ _ _ Hc Hkey Hf') in Happ. by simplify_eq.
        -- rewrite (apply_new _ _ _ Hc Hkey Hf') in Happ. simplify_eq. simpl.
           by apply lookup_app_l_Some.
      * rewrite (apply_throw _ _ _ Hc Hkey) in Happ. by simplify_eq.
    + rewrite (apply_uncached _ _ Hc) in Happ. simplify_eq. simpl.
      by apply lookup_app_l_Some.
  - unfold call in Hcall.
    destruct (functions s.1 !! g) as [[code'|code' vars']|] eqn:Hg.
    + unfold outside in Hcall. destruct (code' state s.2) as [r' w'] in Hcall.
      simplify_eq. eauto.
    + destruct (code' state (vars', s.2)) as [r' [vars'' w']] in Hcall.
      simplify_eq. simpl. destruct (decide (f = g)) as [->|Hne].
      * rewrite Hg in Hf. simplify_eq. exists vars''.
        apply list_lookup_insert_eq. by eapply lookup_lt_Some.
      * exists vars. by rewrite list_lookup_insert_ne.
    + simplify_eq. eauto.
  - eauto.
Qed.


(** In a combinator that started empty, every entry of the cache is a
    cached selector. *)
Lemma cache_entries_are_selectors w0 (s : Combinator World * World) key f :
  rtc (step heapOf inputSelectors combiner options) (new_combinator, w0) s ->
  selectorCache s.1 !! key = Some f ->
  exists code vars, functions s.1 !! f = Some (Memoized code vars).
Proof.
  intros Hsteps. revert key f. revert s Hsteps.
  apply (rtc_ind_r (fun s : Combinator World * World =>
                      forall key f, selectorCache s.1 !! key = Some f ->
                        exists code vars, functions s.1 !! f = Some (Memoized code vars))).
  - intros key f Hf. simpl in Hf. by rewrite lookup_empty in Hf.
  - intros s1 s Hsteps Hstep IH key f Hf.
    assert (selectorCache s1.1 !! key = Some f ->
            exists code vars, functions s.1 !! f = Some (Memoized code vars)) as Hold.
    { intros Hf1. destruct (IH _ _ Hf1) as (code & vars & Hc1).
      destruct (step_keeps_closure _ _ _ _ _ Hstep Hc1) as [vars' Hc]. eauto. }
    inversion Hstep as [props s1' r s' Happ|g state s1' r s' Hcall|c w w']; subst.
    + destruct is_cached eqn:Hc.
      * destruct (JSON_stringify (heapOf s1.2) props) as [key'|e] eqn:Hkey.
        -- destruct (selectorCache s1.1 !! key') as [f'|] eqn:Hf'.
           ++ rewrite (apply_hit _ _ _ _ Hc Hkey Hf') in Happ. simplify_eq. auto.
           ++ rewrite (apply_new _ _ _ Hc Hkey Hf') in Happ. simplify_eq.
              simpl in *. destruct (decide (key' = key)) as [->|Hne].
              ** rewrite lookup_insert_eq in Hf. simplify_eq.
                 do 2 eexists. apply list_lookup_middle. done.
              ** rewrite lookup_insert_ne in Hf by done. auto.
        -- rewrite (apply_throw _ _ _ Hc Hkey) in Happ. simplify_eq. auto.
      * rewrite (apply_uncached _ _ Hc) in Happ. simplify_eq. auto.
    + apply Hold. by rewrite <- (call_selectorCache _ _ _ _ _ Hcall).
    + auto.
Qed.

(** Arguments that have an encoding are given a state-selector. *)
Lemma apply_returns props (s : Combinator World * World) key :
  is_cached = true ->
  JSON_stringify (heapOf s.2) props = Normal key ->
  exists f s', apply props s = (Normal f, s').
Proof.
  intros Hc Hkey. destruct (selectorCache s.1 !! key) as [f|] eqn:Hf.
  - rewrite (apply_hit _ _ _ _ Hc Hkey Hf). eauto.
  - rewrite (apply_new _ _ _ Hc Hkey Hf). eauto.
Qed.

(** In a combinator that started empty, no function is cached under two
    keys. *)
Lemma cache_injective w0 (s : Combinator World * World) key1 key2 f :
  rtc (step heapOf inputSelectors combiner options) (new_combinator, w0) s ->
  selectorCache s.1 !! key1 = Some f ->
  selectorCache s.1 !! key2 = Some f ->
  key1 = key2.
Proof.
  intros Hsteps. revert key1 key2 f. revert s Hsteps.
  apply (rtc_ind_r (fun s : Combinator World * World =>
                      forall key1 key2 f,
                        selectorCache s.1 !! key1 = Some f ->
                        selectorCache s.1 !! key2 = Some f -> key1 = key2)).
  - intros key1 key2 f Hf. simpl in Hf. by rewrite lookup_empty in Hf.
  - intros s1 s Hsteps Hstep IH key1 key2 f Hf1 Hf2.
    inversion Hstep as [props s1' r s' Happ|g state s1' r s' Hcall|c w w']; subst.
    + destruct is_cached eqn:Hc.
      * destruct (JSON_stringify (heapOf s1.2) props) as [key|e] eqn:Hkey.
        -- destruct (selectorCache s1.1 !! key) as [f'|] eqn:Hf'.
           ++ rewrite (apply_hit _ _ _ _ Hc Hkey Hf') in Happ. simplify_eq. eauto.
           ++ rewrite (apply_new _ _ _ Hc Hkey Hf') in Happ. simplify_eq.
              simpl in *.
              assert (forall k, selectorCache s1.1 !! k <> Some (length (functions s1.1)))
                as Hfresh.
              { intros k Hk.
                destruct (cache_entries_are_selectors _ _ _ _ Hsteps Hk)
                  as (code & vars & Hlt%lookup_lt_Some). lia. }
              destruct (decide (key = key1)) as [Heq1|Hne1],
                       (decide (key = key2)) as [Heq2|Hne2].
              ** congruence.
              ** rewrite Heq1, lookup_insert_eq in Hf1.
                 rewrite lookup_insert_ne in Hf2 by done. simplify_eq.
                 by destruct (Hfresh key2).
              ** rewrite Heq2, lookup_insert_eq in Hf2.
                 rewrite lookup_insert_ne in Hf1 by done. simplify_eq.
                 by destruct (Hfresh key1).
              ** rewrite lookup_insert_ne in Hf1, Hf2 by done. eauto.
        -- rewrite (apply_throw _ _ _ Hc Hkey) in Happ. simplify_eq. eauto.
      * rewrite (apply_uncached _ _ Hc) in Happ. simplify_eq. eauto.
    + rewrite (call_selectorCache _ _ _ _ _ Hcall) in Hf1, Hf2. eauto.
    + eauto.
Qed.

(** Once an argument set has been given a state-selector, any later
    argument set with the same key gets that very function, and the
    call creates and changes nothing. *)
Lemma same_key_same_selector props1 props2 key f (s0 s1 s2 : Combinator World * World) :
  is_cached = true ->
  JSON_stringify (heapOf s0.2) props1 = Normal key ->
  apply props1 s0 = (Normal f, s1) ->
  rtc (step heapOf inputSelectors combiner options) s1 s2 ->
  JSON_stringify (heapOf s2.2) props2 = Normal key ->
  apply props2 s2 = (Normal f, s2) /\ selectorCache s2.1 !! key = Some f.
Proof.
  intros Hc Hkey1 Happ Hsteps Hkey2.
  assert (selectorCache s2.1 !! key = Some f) as Hf.
  { apply (steps_keep_entry s1 s2); [done|].
    exact (apply_caches props1 s0 s1 key f Hc Hkey1 Happ). }
  split; [|done]. by eapply apply_hit.
Qed.


(** C2 (as the code has it). For a cached combinator, a call whose
    arguments [JSON.stringify] rejects throws that error at once,
    returns no state-selector and leaves the cache and the functions
    as they were; this is what happens to a circular argument object,
    rejected with a TypeError.  An argument object whose values are
    scalars or functions is not rejected: the call returns a
    state-selector. *)
Theorem unencodable_arguments_throw :
  is_cached = true ->
  (forall props (s : Combinator World * World) e,
      JSON_stringify (heapOf s.2) props = Throw e ->
      apply props s = (Throw e, s))
  /\ (forall l (s : Combinator World * World),
        circular_below (heapOf s.2) [] l ->
        apply (VRef l) s = (Throw circular, s))
  /\ (forall l o ps (s : Combinator World * World),
        heapOf s.2 !! l = Some o -> body_of o = Props ps ->
        Forall (fun kv => Serializable kv.2 = true
                          \/ typeof (heapOf s.2) kv.2 = "function") ps ->
        exists f s', apply (VRef l) s = (Normal f, s')).
Proof.
  intros Hc. split; [|split].
  - intros props s e. by apply apply_throw.
  - intros l s Hcirc. apply apply_throw; [done|].
    by apply circular_structure_throws.
  - intros l o ps s Hl Hbody Hleaves.
    destruct (JSON_stringify_leaves _ _ _ _ Hl Hbody Hleaves) as [key Hkey].
    by eapply apply_returns.
Qed.

(** C6 (as the code has it). The encoding follows the enumeration
    order of the properties: two argument sets of scalar values that
    list the same keys with the same values in the same order have the
    same encoding, wherever the two objects live, and a cached
    combinator gives them the same state-selector.  Conversely, in a
    combinator that started empty, two argument sets that are given the
    same state-selector have the same encoding. *)
Theorem same_order_same_encoding
    l1 o1 l2 o2 ps (s0 s1 s2 : Combinator World * World) r :
  is_cached = true ->
  heapOf s0.2 !! l1 = Some o1 -> body_of o1 = Props ps ->
  heapOf s2.2 !! l2 = Some o2 -> body_of o2 = Props ps ->
  Forall (fun kv => Serializable kv.2 = true) ps ->
  apply (VRef l1) s0 = (r, s1) ->
  rtc (step heapOf inputSelectors combiner options) s1 s2 ->
  (JSON_stringify (heapOf s0.2) (VRef l1) = JSON_stringify (heapOf s2.2) (VRef l2)
   /\ exists f, r = Normal f /\ apply (VRef l2) s2 = (Normal f, s2))
  /\ forall w0 (s : Combinator World * World) props props' key key' f,
      rtc (step heapOf inputSelectors combiner options) (new_combinator, w0) s ->
      JSON_stringify (heapOf s.2) props = Normal key ->
      JSON_stringify (heapOf s.2) props' = Normal key' ->
      apply props s = (Normal f, s) ->
      apply props' s = (Normal f, s) ->
      key = key'.
Proof.
  intros Hc Hl1 Hb1 Hl2 Hb2 Hflat Happ Hsteps. split.
  - pose proof (JSON_stringify_flat _ _ _ _ Hl1 Hb1 Hflat) as H1.
    pose proof (JSON_stringify_flat _ _ _ _ Hl2 Hb2 Hflat) as H2.
    assert (JSON_stringify (heapOf s0.2) (VRef l1)
            = JSON_stringify (heapOf s2.2) (VRef l2)) as Hsame by congruence.
    split; [done|].
    destruct (JSON_stringify (heapOf s0.2) (VRef l1)) as [key|e] eqn:Hkey.
    + destruct r as [f|e].
      * exists f. split; [done|].
        by apply (same_key_same_selector (VRef l1) (VRef l2) key f s0 s1 s2).
      * exfalso. destruct (selectorCache s0.1 !! key) as [f|] eqn:Hf.
        -- by rewrite (apply_hit _ _ _ _ Hc Hkey Hf) in Happ.
        -- by rewrite (apply_new _ _ _ Hc Hkey Hf) in Happ.
    + destruct (JSON_stringify_flat_complete _ _ _ _ Hl1 Hb1 Hflat) as [key Hkey'].
      congruence.
  - intros w0 s props props' key key' f Hreach Hkey Hkey' Hf Hf'.
    apply (cache_injective w0 s key key' f Hreach).
    + exact (apply_caches props s s key f Hc Hkey Hf).
    + exact (apply_caches props' s s key' f Hc Hkey' Hf').
Qed.


(** *** The uncached combinator *)

Lemma evaluate_arguments_spec (selectors : list (ParameterizedSelector World))
    props state evaluated w :
  evaluate_arguments selectors props state evaluated w
  = match applyInputSelectors selectors props state w with
    | (Normal vs, w') => (Normal (evaluated ++ vs)%list, w')
    | (Throw e, w') => (Throw e, w')
    end.
Proof.
  revert evaluated w. induction selectors as [|sel selectors IH];
    intros evaluated w; simpl.
  - unfold ret. by rewrite app_nil_r.
  - unfold applyInputSelectors. simpl. unfold bind at 1 3 4.
    destruct (sel props w) as [[f|e] w1]; [|done].
    unfold bind at 1. destruct (f state w1) as [[v|e] w2]; [|done].
    rewrite IH. unfold applyInputSelectors, bind.
    match goal with
    | |- context [Array_map ?g selectors w2] =>
        destruct (Array_map g selectors w2) as [[vs|e] w3]; [|done]
    end.
    unfold ret. by rewrite <- app_assoc.
Qed.

Lemma uncached_selector_naive props state w :
  uncached_selector inputSelectors combiner props state w
  = naive_composition inputSelectors combiner props state w.
Proof.
  unfold uncached_selector, naive_composition, bind.
  rewrite evaluate_arguments_spec.
  destruct (applyInputSelectors _ _ _ _) as [[vs|e] w1]; [|done]. simpl.
  by destruct (combiner vs w1) as [[v|e] w2].
Qed.

(** C7. A combinator built with no caching option is the naive
    composition: every call returns a function that did not exist
    before, touching neither the cache nor the world, and every read
    through such a function is one run of the naive composition on the
    world (input selectors from left to right, then the combiner), the
    combinator being left as it is: nothing is remembered. *)
Theorem uncached_is_naive_composition :
  is_cached = false ->
  forall props (s : Combinator World * World),
    let f := length (functions s.1) in
    functions s.1 !! f = None
    /\ apply props s
       = (Normal f, ({| selectorCache := selectorCache s.1;
                        functions := functions s.1
                      ++ [Plain (uncached_selector inputSelectors combiner props)] |},
      s.2))
    /\ forall state (s' : Combinator World * World),
        functions s'.1 !! f
        = Some (Plain (uncached_selector inputSelectors combiner props)) ->
        call f state s'
        = ((naive_composition inputSelectors combiner props state s'.2).1,
           (s'.1, (naive_composition inputSelectors combiner props state s'.2).2)).
Proof.
  intros Hc props s f. split; [|split].
  - by apply lookup_ge_None_2.
  - by apply apply_uncached.
  - intros state s' Hf. unfold call. rewrite Hf. unfold outside.
    rewrite uncached_selector_naive.
    by destruct (naive_composition _ _ _ _ _).
Qed.
End Combinator.

(** C5 (as the code has it). Deep equality never throws and leaves the
    world alone; it answers [true] exactly when both calls of
    [JSON.stringify] complete and return the same thing (the same string,
    or [undefined] both times), hence [false] whenever one of them
    throws, as it does on a circular structure. *)
Theorem deepEqual_never_throws (v1 v2 : value) w :
  exists b,
    deepEqual heapOf v1 v2 w = (Normal b, w)
    /\ (b = true <->
        exists s, JSON_stringify (heapOf w) v1 = Normal s
                  /\ JSON_stringify (heapOf w) v2 = Normal s)
    /\ (forall e, JSON_stringify (heapOf w) v1 = Throw e
                  \/ JSON_stringify (heapOf w) v2 = Throw e -> b = false)
    /\ (forall l, circular_below (heapOf w) [] l ->
                  v1 = VRef l \/ v2 = VRef l -> b = false).
Proof.
  exists (deep_equal (heapOf w) v1 v2). split; [apply deepEqual_run|].
  assert (forall e, JSON_stringify (heapOf w) v1 = Throw e
                    \/ JSON_stringify (heapOf w) v2 = Throw e ->
                    deep_equal (heapOf w) v1 v2 = false) as Hthrow.
  { unfold deep_equal. intros e [->| ->]; [done|].
    by destruct (JSON_stringify (heapOf w) v1). }
  split; [|split; [done|]].
  - unfold deep_equal.
    destruct (JSON_stringify (heapOf w) v1) as [s1|e1],
             (JSON_stringify (heapOf w) v2) as [s2|e2];
      try (split; [done|]; by intros (s & ? & ?)).
    rewrite bool_decide_eq_true. split.
    + intros ->. eauto.
    + intros (s & ? & ?). congruence.
  - intros l Hcirc%circular_structure_throws [-> | ->]; apply (Hthrow circular); auto.
Qed.

Lemma Get_lacks fuel (h : heap) l key :
  HasProperty fuel h l key = false -> Get fuel h l key = VUndefined.
Proof.
  revert l. induction fuel as [|fuel IH]; intros l; simpl;
    destruct (h !! l) as [o|]; try done;
    destruct (own_property o key); try done;
    destruct (proto o); try done.
  apply IH.
Qed.

(** C8 (as the code has it). [selectArgument(key)] applied to an argument
    object in which [key] is not found, neither as an own property nor
    along the prototype chain, and then to any state returns [undefined]
    and does not throw; and whatever the arguments, the state-selector
    does not look at the state. *)
Theorem missing_argument_is_undefined (key : string) (l : loc) state w :
  HasProperty (size (heapOf w)) (heapOf w) l key = false ->
  (f <- selectArgument heapOf key (VRef l) ;; f state) w = (Normal VUndefined, w)
  /\ forall props state1 state2 w',
      (f <- selectArgument heapOf key props ;; f state1) w'
      = (f <- selectArgument heapOf key props ;; f state2) w'.
Proof.
  intros Hlacks. split; [|done].
  unfold selectArgument, bind, ret. simpl. by rewrite Get_lacks.
Qed.
End Properties.

(** * The library at work *)

Section Runs.
Import Scenario.

(** C1 at work: a selector that has been read on the state is read on it
    again; the stored result comes back and the combiner is not called. *)
Lemma cached_read_returns_stored_result_run :
  selector fst root (returning (VStr "new")) only_cached VUndefined (VRef 1)
    (read_once (VRef 1) (VStr "stored"), start)
  = (Normal (VStr "stored"), (read_once (VRef 1) (VStr "stored"), start)).
Proof.
  apply (cached_read_returns_stored_result fst root VUndefined (VRef 1)
           (read_once (VRef 1) (VStr "stored")) [VRef 1] start [VRef 1] start).
  - reflexivity.
  - reflexivity.
  - vm_compute. reflexivity.
Defined.

(** C2 at work: the circular argument object is rejected. *)
Lemma unencodable_arguments_throw_run :
  combineSelectors fst root (returning VNull) only_cached (VRef 15) initial
  = (Throw circular, initial).
Proof.
  apply (proj1 (proj2 (unencodable_arguments_throw fst root (returning VNull)
                         only_cached eq_refl)) 15 initial).
  apply (self_reference_circular the_heap 15 (plain [("self", VRef 15)])
           [("self", VRef 15)] "self").
  - vm_compute. reflexivity.
  - reflexivity.
  - apply list_elem_of_here.
Defined.

(** C2 refuted as stated: an argument object that holds a function is
    given a state-selector, no error is raised, and its key is that of
    the empty argument object, which then receives the same function. *)
Lemma function_argument_shares_key :
  holds_function the_heap (VRef 14) = true
  /\ the_heap !! 14 <> the_heap !! 12
  /\ (combineSelectors fst root (returning (VStr "x")) only_cached (VRef 14) initial).1
     = Normal 0
  /\ combineSelectors fst root (returning (VStr "x")) only_cached (VRef 12) (applied 14)
     = (Normal 0, applied 14).
Proof. vm_compute. repeat split; congruence. Qed.


(** C4 at work, with [{shallowEquality: true}]: the state changed, the
    combiner returned a new array [["x"]], and the previous array is
    returned and kept. *)
Lemma cached_read_result_check_run :
  selector fst root (returning (VRef 41)) shallow VUndefined (VRef 1)
    (read_once (VRef 6) (VRef 40), start)
  = (Normal (VRef 40),
     ({| dependencies := Some [VRef 1]; result := VRef 40 |}, (the_heap, 1))).
Proof.
  etrans.
  - apply (cached_read_result_check fst root (returning (VRef 41)) shallow VUndefined
             (VRef 1) (read_once (VRef 6) (VRef 40)) start [VRef 1] start
             (VRef 41) (the_heap, 1)).
    + reflexivity.
    + vm_compute. reflexivity.
    + reflexivity.
  - vm_compute. reflexivity.
Defined.

(** C4 refuted as stated: with both flags set, the two results
    [{a: {b: 1}}] are not shallow-equal, yet deep equality is consulted
    and the previous result is kept, where the specified order would
    store the new one. *)
Lemma both_flags_consult_deep_equality :
  shallowEqual the_heap (VRef 30) (VRef 32) = false
  /\ checkEqual_as_specified the_heap (VRef 30) (VRef 32) shallow_and_deep = false
  /\ checkEqual fst (VRef 30) (VRef 32) shallow_and_deep start = (Normal true, start)
  /\ selector fst root (returning (VRef 32)) shallow_and_deep VUndefined (VRef 1)
       (read_once (VRef 6) (VRef 30), start)
     = (Normal (VRef 30),
        ({| dependencies := Some [VRef 1]; result := VRef 30 |}, (the_heap, 1))).
Proof. vm_compute. repeat split. Qed.

(** C5 refuted as stated: an object that holds a function is deep-equal
    to the empty object. *)
Lemma function_holders_are_deep_equal :
  holds_function the_heap (VRef 14) = true
  /\ deepEqual fst (VRef 14) (VRef 12) start = (Normal true, start).
Proof. vm_compute. split; reflexivity. Qed.

(** C6 at work: two objects [{todoId: "a"}]. *)
Lemma same_order_same_encoding_run :
  JSON_stringify the_heap (VRef 10) = JSON_stringify the_heap (VRef 11)
  /\ exists f,
      (combineSelectors fst root (returning (VStr "x")) only_cached (VRef 10) initial).1
      = Normal f
      /\ combineSelectors fst root (returning (VStr "x")) only_cached (VRef 11)
           (applied_and_read 10)
         = (Normal f, applied_and_read 10).
Proof.
  apply (same_order_same_encoding fst root (returning (VStr "x")) only_cached
           10 (plain [("todoId", VStr "a")]) 11 (plain [("todoId", VStr "a")])
           [("todoId", VStr "a")] initial (applied 10) (applied_and_read 10)).
  - reflexivity.
  - vm_compute. reflexivity.
  - reflexivity.
  - vm_compute. reflexivity.
  - reflexivity.
  - repeat constructor.
  - vm_compute. reflexivity.
  - apply rtc_once.
    apply (step_call fst root (returning (VStr "x")) only_cached 0 (VRef 1)
             (applied 10) (Normal (VStr "x")) (applied_and_read 10)).
    vm_compute. reflexivity.
Defined.

(** C6 refuted as stated: [{a: "1", b: "2"}] and [{b: "2", a: "1"}] bind
    the same keys to the same values, their encodings differ, and a
    cached combinator gives them two different state-selectors. *)
Lemma insertion_order_changes_key :
  body_of <$> the_heap !! 16 = Some (Props [("a", VStr "1"); ("b", VStr "2")])
  /\ body_of <$> the_heap !! 17 = Some (Props [("b", VStr "2"); ("a", VStr "1")])
  /\ [("a", VStr "1"); ("b", VStr "2")] ≡ₚ [("b", VStr "2"); ("a", VStr "1")]
  /\ JSON_stringify the_heap (VRef 16) <> JSON_stringify the_heap (VRef 17)
  /\ (combineSelectors fst root (returning (VStr "x")) only_cached (VRef 16) initial).1
     = Normal 0
  /\ (combineSelectors fst root (returning (VStr "x")) only_cached (VRef 17) (applied 16)).1
     = Normal 1.
Proof.
  split; [vm_compute; reflexivity|].
  split; [vm_compute; reflexivity|].
  split; [apply perm_swap|].
  split; [vm_compute; congruence|].
  split; vm_compute; reflexivity.
Qed.

(** C7 at work: an uncached combinator hands out a new function, and two
    reads on the same state call the combiner twice. *)
Lemma uncached_is_naive_composition_run :
  let code := uncached_selector root (returning (VStr "x")) (VRef 12) in
  combineSelectors fst root (returning (VStr "x")) no_options (VRef 12) initial
  = (Normal 0, ({| selectorCache := ∅; functions := [Plain code] |}, start))
  /\ call 0 (VRef 1) ({| selectorCache := ∅; functions := [Plain code] |}, (the_heap, 1))
     = (Normal (VStr "x"),
        ({| selectorCache := ∅; functions := [Plain code] |}, (the_heap, 2))).
Proof.
  intros code.
  destruct (uncached_is_naive_composition fst root (returning (VStr "x")) no_options
              eq_refl (VRef 12) initial) as (_ & Happ & Hread).
  split.
  - exact Happ.
  - etrans; [apply (Hread (VRef 1)); reflexivity|]. reflexivity.
Defined.

(** C8 at work: [selectArgument("todoId")] on the empty argument object,
    whose prototype has other properties. *)
Lemma missing_argument_is_undefined_run :
  (f <- selectArgument fst "todoId" (VRef 12) ;; f (VRef 1)) start
  = (Normal VUndefined, start).
Proof.
  apply (missing_argument_is_undefined fst "todoId" 12 (VRef 1) start).
  vm_compute. reflexivity.
Defined.

(** C8 refuted as stated: the empty argument object has no property
    [toString] of its own, and [selectArgument("toString")] returns the
    function it inherits from [Object.prototype], not [undefined]. *)
Lemma inherited_argument_is_found :
  the_heap !! 12 = Some (plain [])
  /\ own_property (plain []) "toString" = None
  /\ (f <- selectArgument fst "toString" (VRef 12) ;; f (VRef 1)) start
     = (Normal (VRef 20), start).
Proof. vm_compute. repeat split. Qed.

(** C9 at work: the first read of a selector fails in the combiner; the
    second read, on the same state, returns [undefined] and the combiner
    is not called again. *)
Lemma combiner_failure_leaves_stale_result_run :
  selector fst root failing only_cached VUndefined (VRef 1) (fresh, start)
  = (Throw (Thrown (VStr "boom")), (read_once (VRef 1) VUndefined, (the_heap, 1)))
  /\ selector fst root failing only_cached VUndefined (VRef 1)
       (read_once (VRef 1) VUndefined, (the_heap, 1))
     = (Normal VUndefined, (read_once (VRef 1) VUndefined, (the_heap, 1))).
Proof.
  destruct (combiner_failure_leaves_stale_result fst root failing only_cached
              VUndefined (VRef 1) fresh start [VRef 1] start
              (Thrown (VStr "boom")) (the_heap, 1) eq_refl eq_refl eq_refl)
    as [Hthrow Hstale].
  split.
  - exact Hthrow.
  - apply (Hstale (VRef 1) (the_heap, 1) [VRef 1] (the_heap, 1) failing eq_refl).
    repeat constructor.
Defined.

End Runs.


(** * Further properties of the library *)

Section Reads.
Context {World : Type} (heapOf : World -> heap).

Implicit Types (w : World) (vars : Memo) (props state : value).
Implicit Types (inputSelectors : list (ParameterizedSelector World)).
Implicit Types (combiner : Combiner World) (options : Options).

(** ** The dependency evaluator *)

Lemma applyInputSelectors_cons (sel : ParameterizedSelector World) inputSelectors
    props state w :
  applyInputSelectors (sel :: inputSelectors) props state w
  = match (f <- sel props ;; f state) w with
    | (Normal v, w1) =>
        match applyInputSelectors inputSelectors props state w1 with
        | (Normal vs, w2) => (Normal (v :: vs), w2)
        | (Throw e, w2) => (Throw e, w2)
        end
    | (Throw e, w1) => (Throw e, w1)
    end.
Proof.
  unfold applyInputSelectors. simpl. unfold bind, ret.
  destruct (sel props w) as [[f|e] w1]; [|done].
  destruct (f state w1) as [[v|e] w2]; [|done].
  match goal with
  | |- context [Array_map ?g inputSelectors w2] =>
      by destruct (Array_map g inputSelectors w2) as [[vs|e] w3]
  end.
Qed.

Lemma applyInputSelectors_length inputSelectors props state w deps w' :
  applyInputSelectors inputSelectors props state w = (Normal deps, w') ->
  length deps = length inputSelectors.
Proof.
  revert w deps. induction inputSelectors as [|sel inputSelectors IH]; intros w deps.
  - unfold applyInputSelectors. simpl. unfold ret. intros ?. by simplify_eq.
  - rewrite applyInputSelectors_cons.
    destruct ((f <- sel props ;; f state) w) as [[v|e] w1]; [|done].
    destruct (applyInputSelectors inputSelectors props state w1) as [[vs|e] w2] eqn:Hrest;
      [|done].
    intros ?. simplify_eq. simpl. f_equal. by eapply IH.
Qed.

(** X1. The dependencies follow the input selectors, one for one and in
    their order: when the evaluation completes, the dependency at the
    position of an input selector is what that selector returned, in the
    world the selectors before it had left; the dependencies before it
    are those of the selectors before it, and the dependencies after it
    those of the selectors after it. *)
Theorem dependencies_follow_the_selectors
    (before after : list (ParameterizedSelector World))
    (sel : ParameterizedSelector World) props state w deps w' :
  applyInputSelectors (before ++ sel :: after) props state w = (Normal deps, w') ->
  exists depsb v depsa w1 w2,
    applyInputSelectors before props state w = (Normal depsb, w1)
    /\ (f <- sel props ;; f state) w1 = (Normal v, w2)
    /\ applyInputSelectors after props state w2 = (Normal depsa, w')
    /\ deps = (depsb ++ v :: depsa)%list
    /\ deps !! length before = Some v
    /\ length deps = length (before ++ sel :: after).
Proof.
  intros Hall.
  assert (exists depsb v depsa w1 w2,
             applyInputSelectors before props state w = (Normal depsb, w1)
             /\ (f <- sel props ;; f state) w1 = (Normal v, w2)
             /\ applyInputSelectors after props state w2 = (Normal depsa, w')
             /\ deps = (depsb ++ v :: depsa)%list) as (depsb & v & depsa & w1 & w2 & Hb & Hs & Ha & ->).
  { revert w deps Hall. induction before as [|sel0 before IH]; intros w deps.
    - simpl. rewrite applyInputSelectors_cons.
      destruct ((f <- sel props ;; f state) w) as [[v|e] w1] eqn:Hsel; [|done].
      destruct (applyInputSelectors after props state w1) as [[vs|e] w2] eqn:Hafter;
        [|done].
      intros ?. simplify_eq. by exists [], v, vs, w, w1.
    - simpl. rewrite !applyInputSelectors_cons.
      destruct ((f <- sel0 props ;; f state) w) as [[v0|e] w0] eqn:Hsel0; [|done].
      destruct (applyInputSelectors (before ++ sel :: after) props state w0)
        as [[vs|e] w3] eqn:Hrest; [|done].
      intros ?. simplify_eq.
      destruct (IH w0 vs Hrest) as (depsb & v & depsa & w1 & w2 & Hb & Hs & Ha & ->).
      exists (v0 :: depsb), v, depsa, w1, w2. by rewrite Hb. }
  exists depsb, v, depsa, w1, w2. repeat split; try done.
  - rewrite <- (applyInputSelectors_length _ _ _ _ _ _ Hb).
    by apply list_lookup_middle.
  - by eapply applyInputSelectors_length.
Qed.

(** X2. The input selectors run in order and the first one that throws
    ends the evaluation: the error is the result, the world is the one that
    selector left, and the selectors after it are not run (whatever they
    are). *)
Theorem first_failing_selector_aborts
    (before after : list (ParameterizedSelector World))
    (sel : ParameterizedSelector World) props state w deps w1 e w2 :
  applyInputSelectors before props state w = (Normal deps, w1) ->
  (f <- sel props ;; f state) w1 = (Throw e, w2) ->
  applyInputSelectors (before ++ sel :: after) props state w = (Throw e, w2).
Proof.
  revert w deps. induction before as [|sel0 before IH]; intros w deps Hbefore Hsel.
  - unfold applyInputSelectors in Hbefore. simpl in Hbefore. unfold ret in Hbefore.
    simplify_eq. simpl. rewrite applyInputSelectors_cons. by rewrite Hsel.
  - simpl. rewrite applyInputSelectors_cons in *.
    destruct ((f <- sel0 props ;; f state) w) as [[v|e0] w0]; [|done].
    destruct (applyInputSelectors before props state w0) as [[vs|e0] w0'] eqn:Hrest;
      [|done].
    simplify_eq. by rewrite (IH w0 vs Hrest Hsel).
Qed.

(** ** Reads of a cached selector *)

Lemma selector_recompute inputSelectors combiner options props state vars w newDeps w1
    newResult w2 :
  applyInputSelectors inputSelectors props state w = (Normal newDeps, w1) ->
  shallowEqual_dependencies newDeps (dependencies vars) = false ->
  combiner newDeps w1 = (Normal newResult, w2) ->
  selector heapOf inputSelectors combiner options props state (vars, w)
  = if strict_eq (result vars) newResult
       || truthy (shallowEquality options)
          && shallowEqual (heapOf w2) (result vars) newResult
       || truthy (deepEquality options)
          && deep_equal (heapOf w2) (result vars) newResult
    then (Normal (result vars),
          ({| dependencies := Some newDeps; result := result vars |}, w2))
    else (Normal newResult,
          ({| dependencies := Some newDeps; result := newResult |}, w2)).
Proof.
  intros Hdeps Hne Hcomb.
  unfold selector, bind, outside, inside, read, set_dependencies, set_result. simpl.
  rewrite Hdeps. simpl. rewrite Hne. simpl. rewrite Hcomb. simpl.
  rewrite checkEqual_run.
  by destruct (_ || _ || _).
Qed.

Lemma selector_input_throw inputSelectors combiner options props state vars w e w1 :
  applyInputSelectors inputSelectors props state w = (Throw e, w1) ->
  selector heapOf inputSelectors combiner options props state (vars, w)
  = (Throw e, (vars, w1)).
Proof.
  intros Hdeps. unfold selector, bind, outside. simpl. by rewrite Hdeps.
Qed.

(** X3. A cached read is atomic with respect to a failing input selector:
    the read throws that error with the closure variables untouched, and
    the combiner is not called (the outcome is the same for every
    combiner). *)
Theorem input_failure_leaves_selector_untouched
    inputSelectors props state vars w e w1 :
  applyInputSelectors inputSelectors props state w = (Throw e, w1) ->
  forall combiner options,
    selector heapOf inputSelectors combiner options props state (vars, w)
    = (Throw e, (vars, w1)).
Proof. intros Hdeps combiner options. by apply selector_input_throw. Qed.

Lemma strict_eq_undefined (v : value) :
  strict_eq VUndefined v = bool_decide (v = VUndefined).
Proof. by destruct v. Qed.

Lemma shallowEqual_undefined (h : heap) (v : value) :
  shallowEqual h VUndefined v = bool_decide (v = VUndefined).
Proof.
  unfold shallowEqual. rewrite Object_is_spec.
  destruct v; simpl; try done.
Qed.

(** X4. The first read of a cached selector built without [deepEquality]
    always calls the combiner, and returns and stores what the combiner
    returned, together with the dependencies. *)
Theorem first_read_computes
    inputSelectors combiner options props state w newDeps w1 newResult w2 :
  truthy (deepEquality options) = false ->
  applyInputSelectors inputSelectors props state w = (Normal newDeps, w1) ->
  combiner newDeps w1 = (Normal newResult, w2) ->
  selector heapOf inputSelectors combiner options props state
    ({| dependencies := None; result := VUndefined |}, w)
  = (Normal newResult, ({| dependencies := Some newDeps; result := newResult |}, w2)).
Proof.
  intros Hdeep Hdeps Hcomb.
  rewrite (selector_recompute inputSelectors combiner options props state
             {| dependencies := None; result := VUndefined |} w newDeps w1 newResult w2
             Hdeps eq_refl Hcomb). cbn [result].
  rewrite Hdeep, strict_eq_undefined, shallowEqual_undefined.
  destruct (truthy (shallowEquality options)); simpl;
    case_bool_decide; by simplify_eq.
Qed.

(** X5. With [deepEquality], a first result that [JSON.stringify] turns
    into [undefined] (a function, for one) is taken to be equal to the
    [undefined] the selector starts with: the read returns [undefined], and
    the result is not stored. *)
Theorem first_read_loses_unencodable_result
    inputSelectors combiner options props state w newDeps w1 newResult w2 :
  truthy (deepEquality options) = true ->
  applyInputSelectors inputSelectors props state w = (Normal newDeps, w1) ->
  combiner newDeps w1 = (Normal newResult, w2) ->
  JSON_stringify (heapOf w2) newResult = Normal None ->
  selector heapOf inputSelectors combiner options props state
    ({| dependencies := None; result := VUndefined |}, w)
  = (Normal VUndefined, ({| dependencies := Some newDeps; result := VUndefined |}, w2)).
Proof.
  intros Hdeep Hdeps Hcomb Hjson.
  rewrite (selector_recompute inputSelectors combiner options props state
             {| dependencies := None; result := VUndefined |} w newDeps w1 newResult w2
             Hdeps eq_refl Hcomb). cbn [result].
  assert (deep_equal (heapOf w2) VUndefined newResult = true) as ->.
  { unfold deep_equal. by rewrite Hjson. }
  rewrite Hdeep. by rewrite orb_true_r.
Qed.
End Reads.

Section Results.
Context {World : Type} (heapOf : World -> heap).

Implicit Types (w : World) (vars : Memo) (props state : value).
Implicit Types (inputSelectors : list (ParameterizedSelector World)).
Implicit Types (combiner : Combiner World) (options : Options).

(** After a read that completed, the selector stores the dependencies it
    has just evaluated and the value it has just returned. *)
Lemma selector_completed inputSelectors combiner options props state vars w v vars' w' :
  selector heapOf inputSelectors combiner options props state (vars, w)
  = (Normal v, (vars', w')) ->
  result vars' = v
  /\ exists newDeps w1,
      applyInputSelectors inputSelectors props state w = (Normal newDeps, w1)
      /\ dependencies vars' = Some newDeps.
Proof.
  intros Hread.
  destruct (applyInputSelectors inputSelectors props state w) as [[newDeps|e] w1] eqn:Hdeps.
  - destruct (shallowEqual_dependencies newDeps (dependencies vars)) eqn:Heq.
    + rewrite (selector_hit heapOf _ combiner options _ _ _ _ _ _ Hdeps Heq) in Hread.
      simplify_eq. split; [done|]. exists newDeps, w'. split; [done|].
      by apply shallowEqual_dependencies_spec.
    + destruct (combiner newDeps w1) as [[newResult|e] w2] eqn:Hcomb.
      * rewrite (selector_recompute heapOf _ _ options _ _ _ _ _ _ _ _ Hdeps Heq Hcomb)
          in Hread.
        destruct (_ || _ || _) in Hread; simplify_eq; eauto.
      * rewrite (selector_throw heapOf _ _ options _ _ _ _ _ _ _ _ Hdeps Heq Hcomb)
          in Hread. done.
  - by rewrite (selector_input_throw heapOf _ combiner options _ _ vars _ _ _ Hdeps)
      in Hread.
Qed.

(** ** Results that look the same *)

Lemma assoc_own_key (k : string) (ps : list (string * value)) :
  k ∈ ps.*1 -> is_Some (assoc k ps).
Proof.
  induction ps as [|[k' v] ps IH]; simpl.
  - by intros ?%elem_of_nil.
  - intros [->|Hin]%elem_of_cons.
    + rewrite bool_decide_eq_true_2 by done. eauto.
    + case_bool_decide; eauto.
Qed.

Lemma shallowEqual_objects_refl (o : object) : shallowEqual_objects o o = true.
Proof.
  unfold shallowEqual_objects. rewrite bool_decide_eq_true_2 by done. simpl.
  apply forallb_forall. intros k Hk%list_elem_of_In.
  rewrite Object_is_refl, andb_true_r.
  unfold hasOwnProperty, own_property. apply bool_decide_eq_true.
  destruct (assoc_own_key k (own_enumerable o) Hk) as [v ->]. eauto.
Qed.

(** Two objects, or two arrays, with the same properties in the same order
    are shallow-equal. *)
Lemma shallowEqual_same_body (h : heap) la lb oa ob :
  h !! la = Some oa -> h !! lb = Some ob ->
  body_of oa = body_of ob -> body_of oa <> Callable ->
  shallowEqual h (VRef la) (VRef lb) = true.
Proof.
  intros Ha Hb Hbody Hobj. unfold shallowEqual.
  destruct (Object_is (VRef la) (VRef lb)); [done|].
  simpl. rewrite Ha, Hb. simpl. rewrite <- Hbody.
  rewrite (shallowEqual_objects_body oa oa ob oa) by done.
  rewrite shallowEqual_objects_refl.
  by destruct (body_of oa).
Qed.

(** X6. Shallow-equality result reuse: with [shallowEquality], when the
    dependencies changed and the combiner returned an array or object
    with the same elements or the same properties (same keys in the same
    order, same values) as the previous result, the read returns the
    previous reference and keeps it stored. *)
Theorem shallow_equal_result_is_reused
    inputSelectors combiner options props state vars w newDeps w1 w2 la lb oa ob :
  truthy (shallowEquality options) = true ->
  applyInputSelectors inputSelectors props state w = (Normal newDeps, w1) ->
  shallowEqual_dependencies newDeps (dependencies vars) = false ->
  combiner newDeps w1 = (Normal (VRef lb), w2) ->
  result vars = VRef la ->
  heapOf w2 !! la = Some oa -> heapOf w2 !! lb = Some ob ->
  body_of oa = body_of ob -> body_of oa <> Callable ->
  selector heapOf inputSelectors combiner options props state (vars, w)
  = (Normal (VRef la), ({| dependencies := Some newDeps; result := VRef la |}, w2)).
Proof.
  intros Hshallow Hdeps Hne Hcomb Hres Ha Hb Hbody Hobj.
  rewrite (selector_recompute heapOf _ _ options _ _ _ _ _ _ _ _ Hdeps Hne Hcomb).
  rewrite Hres, Hshallow, (shallowEqual_same_body _ _ _ _ _ Ha Hb Hbody Hobj).
  simpl. by rewrite orb_true_r.
Qed.


(** X8. A cached selector without input selectors is computed once: after
    one read has completed, every later read returns the same value and
    changes nothing, whatever the state, the world and the combiner. *)
Theorem selector_without_inputs_is_computed_once
    combiner options props state vars0 w0 v vars w1 :
  selector heapOf [] combiner options props state (vars0, w0)
  = (Normal v, (vars, w1)) ->
  forall combiner' options' state' w',
    selector heapOf [] combiner' options' props state' (vars, w')
    = (Normal v, (vars, w')).
Proof.
  intros Hread combiner' options' state' w'.
  destruct (selector_completed _ _ _ _ _ _ _ _ _ _ Hread)
    as (<- & newDeps & w2 & Hdeps & Hstored).
  unfold applyInputSelectors in Hdeps. simpl in Hdeps. unfold ret in Hdeps.
  simplify_eq.
  apply (selector_hit heapOf [] combiner' options' props state' vars w' [] w');
    [done|].
  rewrite Hstored. by apply shallowEqual_dependencies_spec.
Qed.

(** X9. [selectArgument(key)(props)] never throws when it is applied to
    the arguments, not even to [undefined]; the property is read when the
    state-selector is called, in the heap of that moment: it throws a
    TypeError on [undefined] and [null] arguments, and returns an own
    property of the argument object when there is one. *)
Theorem selectArgument_reads_when_called (key : string) props w :
  exists f,
    selectArgument heapOf key props w = (Normal f, w)
    /\ (props = VUndefined \/ props = VNull ->
        forall state w', exists msg, f state w' = (Throw (TypeError msg), w'))
    /\ (forall l o v state w',
          props = VRef l -> heapOf w' !! l = Some o -> own_property o key = Some v ->
          f state w' = (Normal v, w')).
Proof.
  eexists. split; [reflexivity|]. split.
  - intros [-> | ->] state w'; eexists; reflexivity.
  - intros l o v state w' -> Hl Hown. simpl. f_equal. f_equal.
    destruct (size (heapOf w')); simpl; by rewrite Hl, Hown.
Qed.
End Results.

Section Handles.
Context {World : Type} (heapOf : World -> heap).
Variable inputSelectors : list (ParameterizedSelector World).
Variable combiner : Combiner World.
Variable options : Options.

Implicit Types (w : World) (vars : Memo) (props state : value).

Local Abbreviation apply := (combineSelectors heapOf inputSelectors combiner options).
Local Abbreviation is_cached :=
  (truthy (cached options) || truthy (shallowEquality options)
   || truthy (deepEquality options)).
Local Abbreviation code_of props := (selector heapOf inputSelectors combiner options props).

Lemma call_memoized f state (s : Combinator World * World) code vars :
  functions s.1 !! f = Some (Memoized code vars) ->
  call f state s
  = ((code state (vars, s.2)).1,
     ({| selectorCache := selectorCache s.1;
         functions := <[f := Memoized code (code state (vars, s.2)).2.1]> (functions s.1) |},
      (code state (vars, s.2)).2.2)).
Proof.
  intros Hf. unfold call. rewrite Hf.
  by destruct (code state (vars, s.2)) as [r [vars' w']].
Qed.

(** X10. Referential stability through the handle: when a read through a
    cached state-selector has completed with [v], a later read through the
    same handle whose input selectors give the same dependencies returns
    [v] again, without running the combiner: the combinator is unchanged
    and the world is the one the input selectors left. *)
Theorem repeated_read_is_stable
    props f state state' (s s1 : Combinator World * World) vars v newDeps w1 w' w1' :
  functions s.1 !! f = Some (Memoized (code_of props) vars) ->
  call f state s = (Normal v, s1) ->
  applyInputSelectors inputSelectors props state s.2 = (Normal newDeps, w1) ->
  applyInputSelectors inputSelectors props state' w' = (Normal newDeps, w1') ->
  call f state' (s1.1, w') = (Normal v, (s1.1, w1')).
Proof.
  intros Hf Hcall Hdeps Hdeps'.
  rewrite (call_memoized _ _ _ _ _ Hf) in Hcall.
  destruct (code_of props state (vars, s.2)) as [r [vars' w2]] eqn:Hread.
  simpl in Hcall. simplify_eq.
  destruct (selector_completed heapOf _ _ _ _ _ _ _ _ _ _ Hread)
    as (<- & newDeps0 & w0 & Hdeps0 & Hstored).
  rewrite Hdeps in Hdeps0. simplify_eq.
  assert (f < length (functions s.1)) as Hlt by by eapply lookup_lt_Some.
  rewrite (call_memoized f state' _ (code_of props) vars').
  2: { simpl. by apply list_lookup_insert_eq. }
  simpl.
  rewrite (selector_hit heapOf inputSelectors combiner options props state' vars' w'
             newDeps0 w1' Hdeps').
  2: { rewrite Hstored. by apply shallowEqual_dependencies_spec. }
  simpl. by rewrite list_insert_insert_eq.
Qed.

Lemma call_length g state (s s' : Combinator World * World) r :
  call g state s = (r, s') -> length (functions s'.1) = length (functions s.1).
Proof.
  unfold call. intros Hcall.
  destruct (functions s.1 !! g) as [[code|code vars]|] eqn:Hg.
  - unfold outside in Hcall. destruct (code state s.2) as [r' w'] in Hcall.
    by simplify_eq.
  - destruct (code state (vars, s.2)) as [r' [vars' w']] in Hcall.
    simplify_eq. simpl. by rewrite length_insert.
  - by simplify_eq.
Qed.



(** X12. In a cached combinator that started empty, every function ever
    created is in the cache: there are as many cache entries as functions,
    and each function is the entry of some key.  Nothing is ever created
    outside the cache, and nothing is evicted. *)
Theorem cached_functions_are_all_cached w0 (s : Combinator World * World) :
  is_cached = true ->
  rtc (step heapOf inputSelectors combiner options) (new_combinator, w0) s ->
  size (selectorCache s.1) = length (functions s.1)
  /\ forall f, f < length (functions s.1) ->
               exists key, selectorCache s.1 !! key = Some f.
Proof.
  intros Hc Hsteps. revert s Hsteps.
  apply (rtc_ind_r (fun s : Combinator World * World =>
                      size (selectorCache s.1) = length (functions s.1)
                      /\ forall f, f < length (functions s.1) ->
                                   exists key, selectorCache s.1 !! key = Some f)).
  - simpl. split; [by rewrite map_size_empty|]. intros f Hf. lia.
  - intros s1 s Hsteps Hstep [IHsize IHall].
    inversion Hstep as [props s1' r s' Happ|g state s1' r s' Hcall|c w w']; subst.
    + destruct (JSON_stringify (heapOf s1.2) props) as [key|e] eqn:Hkey.
      * destruct (selectorCache s1.1 !! key) as [f'|] eqn:Hf'.
        -- rewrite (apply_hit _ _ _ _ _ _ _ _ Hc Hkey Hf') in Happ. by simplify_eq.
        -- rewrite (apply_new _ _ _ _ _ _ _ Hc Hkey Hf') in Happ. simplify_eq. simpl.
           rewrite length_app. simpl. split.
           ++ rewrite map_size_insert_None by done. lia.
           ++ intros f Hf. destruct (decide (f = length (functions s1.1))) as [->|Hne].
              ** exists key. apply lookup_insert_eq.
              ** destruct (IHall f ltac:(lia)) as [key' Hkey'].
                 exists key'. rewrite lookup_insert_ne; [done|]. congruence.
      * rewrite (apply_throw _ _ _ _ _ _ _ Hc Hkey) in Happ. by simplify_eq.
    + rewrite (call_selectorCache _ _ _ _ _ Hcall), (call_length _ _ _ _ _ Hcall).
      done.
    + done.
Qed.

(** X13. A combinator built without caching options never uses the cache:
    however it is used, the cache stays empty, and every function it has
    handed out is an uncached state-selector of its own, bound to some
    arguments. *)
Theorem uncached_combinator_keeps_nothing w0 (s : Combinator World * World) :
  is_cached = false ->
  rtc (step heapOf inputSelectors combiner options) (new_combinator, w0) s ->
  selectorCache s.1 = ∅
  /\ Forall (fun c => exists props,
                c = Plain (uncached_selector inputSelectors combiner props))
       (functions s.1).
Proof.
  intros Hc Hsteps. revert s Hsteps.
  apply (rtc_ind_r (fun s : Combinator World * World =>
                      selectorCache s.1 = ∅
                      /\ Forall (fun c => exists props,
                                    c = Plain (uncached_selector inputSelectors
                                                 combiner props))
                           (functions s.1))).
  - simpl. split; [done|constructor].
  - intros s1 s Hsteps Hstep [IHcache IHall].
    inversion Hstep as [props s1' r s' Happ|g state s1' r s' Hcall|c w w']; subst.
    + rewrite (apply_uncached _ _ _ _ _ _ Hc) in Happ. simplify_eq. simpl.
      split; [done|]. apply Forall_app. split; [done|].
      constructor; [eauto|constructor].
    + split; [by rewrite (call_selectorCache _ _ _ _ _ Hcall)|].
      unfold call in Hcall.
      destruct (functions s1.1 !! g) as [[code|code vars]|] eqn:Hg.
      * unfold outside in Hcall. destruct (code state s1.2) as [r' w'] in Hcall.
        by simplify_eq.
      * apply list_elem_of_lookup_2 in Hg.
        rewrite Forall_forall in IHall. by destruct (IHall _ Hg) as [props ?].
      * by simplify_eq.
    + done.
Qed.
End Handles.

(** * The application's selectors *)

Section Todos.
Implicit Types (h : heap) (props state : value).

Local Arguments GetV : simpl never.

Lemma property_field h v k v' : field h v k v' -> property v k h = (Normal v', h).
Proof.
  intros (l & o & -> & Hl & Hown). unfold property, GetV. f_equal. f_equal.
  destruct (size h); simpl; by rewrite Hl, Hown.
Qed.

Lemma field_weaken h h' v k v' : h ⊆ h' -> field h v k v' -> field h' v k v'.
Proof.
  intros Hsub (l & o & -> & Hl & Hown). exists l, o.
  repeat split; try done. by eapply lookup_weaken.
Qed.

(** A combined selector used as an input selector runs its input selectors,
    then its combiner. *)
Lemma combined_run inputSelectors combiner props state h :
  (f <- combined inputSelectors combiner props ;; f state) h
  = uncached_selector inputSelectors combiner props state h.
Proof. done. Qed.

(** [combined] is what a combinator built without caching options does when
    it is applied and the state-selector called at once: the result and the
    heap are those of [combined], and the combinator only grows by the
    function it has handed out. *)
Lemma combined_agrees inputSelectors combiner options props state
    (s : Combinator heap * heap) :
  truthy (cached options) || truthy (shallowEquality options)
  || truthy (deepEquality options) = false ->
  (f <- combineSelectors (fun h => h) inputSelectors combiner options props ;;
   call f state) s
  = (((g <- combined inputSelectors combiner props ;; g state) s.2).1,
     ({| selectorCache := selectorCache s.1;
         functions := functions s.1
                      ++ [Plain (uncached_selector inputSelectors combiner props)] |},
      ((g <- combined inputSelectors combiner props ;; g state) s.2).2)).
Proof.
  intros Hc. rewrite combined_run. unfold bind.
  rewrite (apply_uncached (fun h => h) inputSelectors combiner options props s Hc).
  unfold call. simpl.
  rewrite lookup_app_r, Nat.sub_diag by done. simpl. unfold outside. simpl.
  by destruct (uncached_selector inputSelectors combiner props state s.2).
Qed.

Lemma applyInputSelectors_one(sel : ParameterizedSelector heap) props state h :
  applyInputSelectors [sel] props state h
  = match (f <- sel props ;; f state) h with
    | (Normal v, h1) => (Normal [v], h1)
    | (Throw e, h1) => (Throw e, h1)
    end.
Proof.
  rewrite applyInputSelectors_cons.
  by destruct ((f <- sel props ;; f state) h) as [[v|e] h1].
Qed.

(** [selectTodos(props)(state)] is [state.todos]. *)
Lemma selectTodos_run props state h :
  (f <- selectTodos props ;; f state) h = property state "todos" h.
Proof.
  unfold selectTodos. rewrite combined_run. unfold uncached_selector, bind at 1.
  rewrite applyInputSelectors_one. simpl.
  unfold bind, ret, property, argument. simpl. by destruct (GetV h state "todos").
Qed.

(** [selectTodoIds(props)(state)] is [state.todos.allIds]. *)
Lemma selectTodoIds_run props state h :
  (f <- selectTodoIds props ;; f state) h
  = (todos <- property state "todos" ;; property todos "allIds") h.
Proof.
  unfold selectTodoIds. rewrite combined_run. unfold uncached_selector, bind at 1.
  rewrite applyInputSelectors_one, selectTodos_run.
  unfold bind, ret, property, argument. simpl.
  destruct (GetV h state "todos") as [todos|e]; [|done]. simpl.
  by destruct (GetV h todos "allIds").
Qed.

(** [selectTodo(props)(state)] reads [state.todos], then [props.todoId],
    then [todos.byId], then [byId[todoId]]. *)
Lemma selectTodo_run props state h :
  (f <- selectTodo props ;; f state) h
  = (todos <- property state "todos" ;;
     todoId <- property props "todoId" ;;
     byId <- property todos "byId" ;;
     element byId todoId) h.
Proof.
  unfold selectTodo. rewrite combined_run. unfold uncached_selector, bind at 1.
  rewrite applyInputSelectors_cons, selectTodos_run.
  unfold property at 1.
  destruct (GetV h state "todos") as [todos|e] eqn:Htodos.
  2: { unfold bind, property. by rewrite Htodos. }
  rewrite applyInputSelectors_one.
  unfold selectArgument, bind, ret, element, property, argument. simpl.
  rewrite Htodos.
  destruct (GetV h props "todoId") as [todoId|e]; [|done]. simpl.
  destruct (GetV h todos "byId") as [byId|e]; [|done]. simpl.
  by destruct (GetV h byId (ToPropertyKey todoId)).
Qed.

Lemma selectTodoMessage_run props state h :
  (f <- selectTodoMessage props ;; f state) h
  = (todo <- (fun h => (f <- selectTodo props ;; f state) h) ;;
     property todo "message") h.
Proof.
  unfold selectTodoMessage. rewrite combined_run. unfold uncached_selector, bind at 1.
  rewrite applyInputSelectors_one.
  unfold bind at 3.
  destruct ((f <- selectTodo props ;; f state) h) as [[todo|e] h1]; [|done].
  unfold bind, ret, property, argument. simpl. by destruct (GetV h1 todo "message").
Qed.

Lemma selectIsTodoCompleted_run props state h :
  (f <- selectIsTodoCompleted props ;; f state) h
  = (todo <- (fun h => (f <- selectTodo props ;; f state) h) ;;
     property todo "completed") h.
Proof.
  unfold selectIsTodoCompleted. rewrite combined_run. unfold uncached_selector, bind at 1.
  rewrite applyInputSelectors_one.
  unfold bind at 3.
  destruct ((f <- selectTodo props ;; f state) h) as [[todo|e] h1]; [|done].
  unfold bind, ret, property, argument. simpl. by destruct (GetV h1 todo "completed").
Qed.



(** X14. On a state of the expected shape, [selectTodo] returns the to-do
    object that [state.todos.byId] holds under the [todoId] argument (the
    object itself, not a copy), [selectTodoMessage] its message and
    [selectIsTodoCompleted] its [completed] flag; none of them changes the
    heap. *)
Theorem todo_selectors_read_the_todo h props state todos todoId byId todo :
  field h state "todos" todos ->
  field h props "todoId" todoId ->
  field h todos "byId" byId ->
  field h byId (ToPropertyKey todoId) todo ->
  (f <- selectTodo props ;; f state) h = (Normal todo, h)
  /\ (forall message, field h todo "message" message ->
        (f <- selectTodoMessage props ;; f state) h = (Normal message, h))
  /\ (forall completed, field h todo "completed" completed ->
        (f <- selectIsTodoCompleted props ;; f state) h = (Normal completed, h)).
Proof.
  intros Htodos Hid HbyId Htodo.
  assert ((f <- selectTodo props ;; f state) h = (Normal todo, h)) as Hrun.
  { rewrite selectTodo_run. unfold bind, element.
    rewrite (property_field _ _ _ _ Htodos), (property_field _ _ _ _ Hid),
      (property_field _ _ _ _ HbyId).
    by apply property_field. }
  split; [done|]. split.
  - intros message Hm. rewrite selectTodoMessage_run. unfold bind at 1.
    rewrite Hrun. by apply property_field.
  - intros completed Hc. rewrite selectIsTodoCompleted_run. unfold bind at 1.
    rewrite Hrun. by apply property_field.
Qed.


(** X16. [selectTodoIds] returns the [allIds] array of the state itself,
    whatever the arguments, and does not change the heap: two states that
    share their list of identifiers give the same reference. *)
Theorem todo_ids_are_the_state_s_own h state todos allIds :
  field h state "todos" todos ->
  field h todos "allIds" allIds ->
  forall props, (f <- selectTodoIds props ;; f state) h = (Normal allIds, h).
Proof.
  intros Htodos Hids props. rewrite selectTodoIds_run. unfold bind.
  rewrite (property_field _ _ _ _ Htodos). by apply property_field.
Qed.
End Todos.

Section IncompleteTodos.
Variable Array_prototype : loc.

Implicit Types (h : heap) (props state todos : value).

Local Arguments GetV : simpl never.

Local Abbreviation array_of es :=
  {| body_of := Elems es; proto := Some Array_prototype |}.

Lemma fresh_unused h : h !! fresh (dom h) = None.
Proof. apply not_elem_of_dom, is_fresh. Qed.

(** The callback allocates one array, with the message of a to-do that is
    not completed and empty otherwise, and touches nothing else. *)
Lemma incomplete_message_run h0 h todos byId id todo completed message :
  h0 ⊆ h ->
  field h0 todos "byId" byId ->
  field h0 byId (ToPropertyKey id) todo ->
  field h0 todo "completed" completed ->
  field h0 todo "message" message ->
  incomplete_message Array_prototype todos id h
  = (Normal (VRef (fresh (dom h))),
     <[fresh (dom h) := array_of (if ToBoolean completed then [] else [message])]> h).
Proof.
  intros Hsub HbyId Htodo Hc Hm.
  unfold incomplete_message, bind, element.
  rewrite (property_field h todos "byId" byId) by by eapply field_weaken.
  rewrite (property_field h byId _ todo) by by eapply field_weaken.
  rewrite (property_field h todo "completed" completed) by by eapply field_weaken.
  rewrite (property_field h todo "message" message) by by eapply field_weaken.
  by destruct (ToBoolean completed).
Qed.

Lemma FlattenIntoArray_run h0 todos byId ids messages :
  field h0 todos "byId" byId ->
  listed h0 byId ids messages ->
  forall h A acc,
    h0 ⊆ h -> h0 !! A = None -> h !! A = Some (array_of acc) ->
    exists h',
      FlattenIntoArray A (incomplete_message Array_prototype todos) ids h
      = (Normal tt, h')
      /\ h0 ⊆ h'
      /\ h' !! A = Some (array_of (acc ++ messages)%list).
Proof.
  intros HbyId Hlisted.
  induction Hlisted as [|id ids todo completed message messages Htodo Hc Hm _ IH];
    intros h A acc Hsub HA0 HA.
  - exists h. simpl. unfold ret. by rewrite app_nil_r.
  - simpl. unfold bind at 1.
    rewrite (incomplete_message_run h0 h todos byId id todo completed message)
      by done.
    set (l := fresh (dom h)).
    set (es := if ToBoolean completed then [] else [message]).
    assert (h !! l = None) as Hl by apply fresh_unused.
    assert (l <> A) as Hne by congruence.
    unfold bind at 1, append_flattened, bind at 1, get_state.
    rewrite lookup_insert_eq. simpl.
    unfold append at 1. rewrite lookup_insert_ne by done. rewrite HA. simpl.
    destruct (IH (<[A := array_of (acc ++ es)%list]> (<[l := array_of es]> h)) A
                (acc ++ es)%list) as (h' & Hrun & Hsub' & HA').
    + apply insert_subseteq_r; [done|].
      apply insert_subseteq_r; [|done].
      eapply lookup_weaken_None; done.
    + done.
    + apply lookup_insert_eq.
    + exists h'. rewrite Hrun. split; [done|]. split; [done|].
      rewrite HA'. do 2 f_equal. rewrite <- app_assoc. f_equal.
      subst es. by destruct (ToBoolean completed).
Qed.

(** The combiner of [selectIncompleteTodoMessages] on a to-do list of the
    expected shape: it returns a new array with the messages of the to-dos
    that are not completed, in the order of [allIds], and leaves every
    object of the heap as it was. *)
Lemma incompleteTodoMessages_run h todos la oa ids byId messages :
  field h todos "allIds" (VRef la) ->
  h !! la = Some oa -> body_of oa = Elems ids ->
  field h todos "byId" byId ->
  listed h byId ids messages ->
  exists A h',
    incompleteTodoMessages Array_prototype [todos] h = (Normal (VRef A), h')
    /\ h !! A = None
    /\ h ⊆ h'
    /\ h' !! A = Some (array_of messages).
Proof.
  intros Hids Hla Hbody HbyId Hlisted.
  unfold incompleteTodoMessages, argument. simpl. unfold bind at 1.
  rewrite (property_field _ _ _ _ Hids).
  unfold flatMap, bind at 1, get_state. rewrite Hla. simpl. rewrite Hbody.
  unfold bind at 1, allocate.
  set (A := fresh (dom h)).
  assert (h !! A = None) as HA by apply fresh_unused.
  destruct (FlattenIntoArray_run h todos byId ids messages HbyId Hlisted
              (<[A := array_of []]> h) A []) as (h' & Hrun & Hsub & HA').
  - by apply insert_subseteq.
  - done.
  - apply lookup_insert_eq.
  - exists A, h'. unfold bind. rewrite Hrun. done.
Qed.

Local Abbreviation code_of props :=
  (selector (fun h => h) [selectTodos] (incompleteTodoMessages Array_prototype)
     shallowEquality_only props).

Lemma todos_dependency h props state todos :
  field h state "todos" todos ->
  applyInputSelectors [selectTodos] props state h = (Normal [todos], h).
Proof.
  intros Htodos. rewrite applyInputSelectors_one, selectTodos_run.
  by rewrite (property_field _ _ _ _ Htodos).
Qed.

(** X17. The first read of [selectIncompleteTodoMessages] on a state of the
    expected shape returns a newly allocated array that holds the messages
    of the to-dos that are not completed, in the order of [allIds]; every
    object the heap had is left as it was, and the selector remembers the
    to-do list and the array. *)
Theorem incomplete_messages_first_read
    props f state (s : Combinator heap * heap) todos la oa ids byId messages :
  functions s.1 !! f
  = Some (Memoized (code_of props) {| dependencies := None; result := VUndefined |}) ->
  field s.2 state "todos" todos ->
  field s.2 todos "allIds" (VRef la) ->
  s.2 !! la = Some oa -> body_of oa = Elems ids ->
  field s.2 todos "byId" byId ->
  listed s.2 byId ids messages ->
  exists A h',
    call f state s
    = (Normal (VRef A),
       ({| selectorCache := selectorCache s.1;
           functions := <[f := Memoized (code_of props)
                                 {| dependencies := Some [todos]; result := VRef A |}]>
                          (functions s.1) |}, h'))
    /\ s.2 !! A = None
    /\ s.2 ⊆ h'
    /\ h' !! A = Some (array_of messages).
Proof.
  intros Hf Htodos Hids Hla Hbody HbyId Hlisted.
  destruct (incompleteTodoMessages_run _ _ _ _ _ _ _ Hids Hla Hbody HbyId Hlisted)
    as (A & h' & Hrun & HA & Hsub & HA').
  exists A, h'. split; [|done].
  rewrite (call_memoized _ _ _ _ _ Hf).
  rewrite (selector_recompute (fun h => h) [selectTodos]
             (incompleteTodoMessages Array_prototype) shallowEquality_only props state
             {| dependencies := None; result := VUndefined |} s.2 [todos] s.2
             (VRef A) h' (todos_dependency _ _ _ _ Htodos) eq_refl Hrun).
  cbn [result]. rewrite strict_eq_undefined, shallowEqual_undefined.
  by rewrite !(bool_decide_eq_false_2 (VRef A = VUndefined)) by done.
Qed.

(** X18. Referential stability of the derived list: when the selector
    holds an array with the messages [messages], a read on any state whose
    incomplete to-dos have these very messages returns that array again,
    not a new one, whether or not the to-do list of the state is the one
    the selector saw last; the old objects of the heap are untouched. *)
Theorem incomplete_messages_are_stable
    props f state (s : Combinator heap * heap) vars A0 o0 todos la oa ids byId messages :
  functions s.1 !! f = Some (Memoized (code_of props) vars) ->
  result vars = VRef A0 ->
  s.2 !! A0 = Some o0 -> body_of o0 = Elems messages ->
  field s.2 state "todos" todos ->
  field s.2 todos "allIds" (VRef la) ->
  s.2 !! la = Some oa -> body_of oa = Elems ids ->
  field s.2 todos "byId" byId ->
  listed s.2 byId ids messages ->
  exists vars' h',
    call f state s
    = (Normal (VRef A0),
       ({| selectorCache := selectorCache s.1;
           functions := <[f := Memoized (code_of props) vars']> (functions s.1) |}, h'))
    /\ result vars' = VRef A0
    /\ s.2 ⊆ h'.
Proof.
  intros Hf Hres HA0 Hbody0 Htodos Hids Hla Hbody HbyId Hlisted.
  rewrite (call_memoized _ _ _ _ _ Hf).
  pose proof (todos_dependency _ props _ _ Htodos) as Hdeps.
  destruct (shallowEqual_dependencies [todos] (dependencies vars)) eqn:Heq.
  - rewrite (selector_hit (fun h => h) _ (incompleteTodoMessages Array_prototype)
               shallowEquality_only _ _ _ _ _ _ Hdeps Heq).
    exists vars, s.2. simpl. by rewrite Hres.
  - destruct (incompleteTodoMessages_run _ _ _ _ _ _ _ Hids Hla Hbody HbyId Hlisted)
      as (A & h' & Hrun & HA & Hsub & HA').
    rewrite (selector_recompute (fun h => h) _ _ shallowEquality_only _ _ _ _ _ _ _ _
               Hdeps Heq Hrun).
    rewrite Hres.
    rewrite (shallowEqual_same_body h' A0 A o0 (array_of messages)); try done.
    + simpl. rewrite orb_true_r. simpl.
      exists {| dependencies := Some [todos]; result := VRef A0 |}, h'. done.
    + by eapply lookup_weaken.
    + by rewrite Hbody0.
Qed.




End IncompleteTodos.

(** * The further properties at work *)

Section MoreRuns.
Import Scenario TodoScenario.

Ltac field_here :=
  eexists _, _; split; [reflexivity|split; vm_compute; reflexivity].


(** X1 at work: the state, the [todoId] argument and the state again. *)
Lemma dependencies_follow_the_selectors_run :
  exists depsb v depsa w1 w2,
    applyInputSelectors root (VRef 10) (VRef 1) start = (Normal depsb, w1)
    /\ (f <- selectArgument fst "todoId" (VRef 10) ;; f (VRef 1)) w1 = (Normal v, w2)
    /\ applyInputSelectors root (VRef 10) (VRef 1) w2 = (Normal depsa, start)
    /\ [VRef 1; VStr "a"; VRef 1] = (depsb ++ v :: depsa)%list
    /\ [VRef 1; VStr "a"; VRef 1] !! length root = Some v
    /\ length [VRef 1; VStr "a"; VRef 1]
       = length (root ++ selectArgument fst "todoId" :: root).
Proof.
  apply (dependencies_follow_the_selectors root root (selectArgument fst "todoId")
           (VRef 10) (VRef 1) start [VRef 1; VStr "a"; VRef 1] start).
  vm_compute. reflexivity.
Defined.

(** X2 at work: the second of three input selectors reads an argument of
    [undefined]. *)
Lemma first_failing_selector_aborts_run :
  applyInputSelectors ([selectRoot] ++ failing_input :: [selectRoot])
    (VRef 12) (VRef 1) start
  = (Throw (TypeError "Cannot read properties of undefined or null"), start).
Proof.
  apply (first_failing_selector_aborts [selectRoot] [selectRoot] failing_input
           (VRef 12) (VRef 1) start [VRef 1] start).
  - reflexivity.
  - reflexivity.
Defined.

(** X3 at work: the input selector fails; the stored result and
    dependencies stay, the combiner is not called. *)
Lemma input_failure_leaves_selector_untouched_run :
  selector fst [failing_input] (returning (VStr "new")) only_cached (VRef 12) (VRef 1)
    (read_once (VRef 1) (VStr "stored"), start)
  = (Throw (TypeError "Cannot read properties of undefined or null"),
     (read_once (VRef 1) (VStr "stored"), start)).
Proof.
  apply (input_failure_leaves_selector_untouched fst [failing_input] (VRef 12) (VRef 1)
           (read_once (VRef 1) (VStr "stored")) start).
  reflexivity.
Defined.

(** X4 at work. *)
Lemma first_read_computes_run :
  selector fst root (returning (VStr "x")) only_cached (VRef 12) (VRef 1) (fresh, start)
  = (Normal (VStr "x"), (read_once (VRef 1) (VStr "x"), (the_heap, 1))).
Proof.
  apply (first_read_computes fst root (returning (VStr "x")) only_cached (VRef 12)
           (VRef 1) start [VRef 1] start (VStr "x") (the_heap, 1)).
  - reflexivity.
  - reflexivity.
  - reflexivity.
Defined.

(** X5 at work: with [{deepEquality: true}], a combiner that returns a
    function. *)
Lemma first_read_loses_unencodable_result_run :
  selector fst root (returning (VRef 20)) deep_only (VRef 12) (VRef 1) (fresh, start)
  = (Normal VUndefined, (read_once (VRef 1) VUndefined, (the_heap, 1))).
Proof.
  apply (first_read_loses_unencodable_result fst root (returning (VRef 20)) deep_only
           (VRef 12) (VRef 1) start [VRef 1] start (VRef 20) (the_heap, 1)).
  - reflexivity.
  - reflexivity.
  - reflexivity.
  - vm_compute. reflexivity.
Defined.

(** X6 at work: a new array [["x"]]. *)
Lemma shallow_equal_result_is_reused_run :
  selector fst root (returning (VRef 41)) shallow (VRef 12) (VRef 1)
    (read_once (VRef 6) (VRef 40), start)
  = (Normal (VRef 40),
     ({| dependencies := Some [VRef 1]; result := VRef 40 |}, (the_heap, 1))).
Proof.
  apply (shallow_equal_result_is_reused fst root (returning (VRef 41)) shallow
           (VRef 12) (VRef 1) (read_once (VRef 6) (VRef 40)) start [VRef 1] start
           (the_heap, 1) 40 41
           {| body_of := Elems [VStr "x"]; proto := Some 9 |}
           {| body_of := Elems [VStr "x"]; proto := Some 9 |}).
  - reflexivity.
  - reflexivity.
  - vm_compute. reflexivity.
  - reflexivity.
  - reflexivity.
  - vm_compute. reflexivity.
  - vm_compute. reflexivity.
  - reflexivity.
  - discriminate.
Defined.


(** X8 at work: no input selector; after the first read, a read on another
    state, with a combiner that would fail. *)
Lemma selector_without_inputs_is_computed_once_run :
  selector fst [] failing shallow (VRef 12) (VRef 6)
    ({| dependencies := Some []; result := VStr "x" |}, (the_heap, 5))
  = (Normal (VStr "x"),
     ({| dependencies := Some []; result := VStr "x" |}, (the_heap, 5))).
Proof.
  apply (selector_without_inputs_is_computed_once fst (returning (VStr "x")) only_cached
           (VRef 12) (VRef 1) fresh start (VStr "x")
           {| dependencies := Some []; result := VStr "x" |} (the_heap, 1)).
  reflexivity.
Defined.

(** X10 at work: the state-selector is read a second time, on the same
    state; the count of combiner calls does not move. *)
Lemma repeated_read_is_stable_run :
  call 0 (VRef 1) ((applied_and_read 10).1, (the_heap, 7))
  = (Normal (VStr "x"), ((applied_and_read 10).1, (the_heap, 7))).
Proof.
  apply (repeated_read_is_stable fst root (returning (VStr "x")) only_cached
           (VRef 10) 0 (VRef 1) (VRef 1) (applied 10) (applied_and_read 10) fresh
           (VStr "x") [VRef 1] start (the_heap, 7) (the_heap, 7)).
  - vm_compute. reflexivity.
  - vm_compute. reflexivity.
  - reflexivity.
  - reflexivity.
Defined.


(** X12 at work: after one call and one read. *)
Lemma cached_functions_are_all_cached_run :
  size (selectorCache (applied_and_read 10).1)
  = length (functions (applied_and_read 10).1)
  /\ forall f, f < length (functions (applied_and_read 10).1) ->
               exists key, selectorCache (applied_and_read 10).1 !! key = Some f.
Proof.
  apply (cached_functions_are_all_cached fst root (returning (VStr "x")) only_cached
           start (applied_and_read 10)).
  - reflexivity.
  - eapply rtc_l.
    + apply (step_apply fst root (returning (VStr "x")) only_cached (VRef 10) initial
               (Normal 0) (applied 10)).
      vm_compute. reflexivity.
    + apply rtc_once.
      apply (step_call fst root (returning (VStr "x")) only_cached 0 (VRef 1)
               (applied 10) (Normal (VStr "x")) (applied_and_read 10)).
      vm_compute. reflexivity.
Defined.

(** X13 at work: an uncached combinator applied once. *)
Lemma uncached_combinator_keeps_nothing_run :
  selectorCache uncached_applied.1 = ∅
  /\ Forall (fun c => exists props,
               c = Plain (uncached_selector root (returning (VStr "x")) props))
       (functions uncached_applied.1).
Proof.
  apply (uncached_combinator_keeps_nothing fst root (returning (VStr "x")) no_options
           start uncached_applied).
  - reflexivity.
  - apply rtc_once.
    apply (step_apply fst root (returning (VStr "x")) no_options (VRef 12) initial
             (Normal 0) uncached_applied).
    vm_compute. reflexivity.
Defined.

(** X14 at work: the to-do "a". *)
Lemma todo_selectors_read_the_todo_run :
  (f <- selectTodo (VRef 10) ;; f (VRef 1)) the_heap = (Normal (VRef 5), the_heap)
  /\ (forall message, field the_heap (VRef 5) "message" message ->
        (f <- selectTodoMessage (VRef 10) ;; f (VRef 1)) the_heap
        = (Normal message, the_heap))
  /\ (forall completed, field the_heap (VRef 5) "completed" completed ->
        (f <- selectIsTodoCompleted (VRef 10) ;; f (VRef 1)) the_heap
        = (Normal completed, the_heap)).
Proof.
  apply (todo_selectors_read_the_todo the_heap (VRef 10) (VRef 1) (VRef 2) (VStr "a")
           (VRef 4) (VRef 5)); field_here.
Defined.


(** X16 at work. *)
Lemma todo_ids_are_the_state_s_own_run :
  (f <- selectTodoIds (VRef 10) ;; f (VRef 1)) the_heap = (Normal (VRef 3), the_heap).
Proof.
  apply (todo_ids_are_the_state_s_own the_heap (VRef 1) (VRef 2) (VRef 3)); field_here.
Defined.

(** X17 at work: the state with the one to-do "a", not completed. *)
Lemma incomplete_messages_first_read_run :
  exists A h',
    call 0 (VRef 1) incomplete_applied
    = (Normal (VRef A),
       ({| selectorCache := selectorCache incomplete_applied.1;
           functions := <[0 := Memoized incomplete_code
                                 {| dependencies := Some [VRef 2]; result := VRef A |}]>
                          (functions incomplete_applied.1) |}, h'))
    /\ incomplete_applied.2 !! A = None
    /\ incomplete_applied.2 ⊆ h'
    /\ h' !! A = Some {| body_of := Elems [VStr "x"]; proto := Some 9 |}.
Proof.
  apply (incomplete_messages_first_read 9 (VRef 12) 0 (VRef 1) incomplete_applied
           (VRef 2) 3 {| body_of := Elems [VStr "a"]; proto := Some 9 |} [VStr "a"]
           (VRef 4) [VStr "x"]).
  - vm_compute. reflexivity.
  - field_here.
  - field_here.
  - vm_compute. reflexivity.
  - reflexivity.
  - field_here.
  - apply (listed_cons _ _ (VStr "a") [] (VRef 5) (VBool false) (VStr "x") []);
      [field_here|field_here|field_here|constructor].
Defined.

(** X18 at work: the to-do "b", completed, was added; the array the
    selector holds comes back. *)
Lemma incomplete_messages_are_stable_run :
  exists vars' h',
    call 0 (VRef 50) (incomplete_holding later_heap)
    = (Normal (VRef 40),
       ({| selectorCache := selectorCache (incomplete_holding later_heap).1;
           functions := <[0 := Memoized incomplete_code vars']>
                          (functions (incomplete_holding later_heap).1) |}, h'))
    /\ result vars' = VRef 40
    /\ (incomplete_holding later_heap).2 ⊆ h'.
Proof.
  apply (incomplete_messages_are_stable 9 (VRef 12) 0 (VRef 50)
           (incomplete_holding later_heap)
           {| dependencies := Some [VRef 2]; result := VRef 40 |} 40
           {| body_of := Elems [VStr "x"]; proto := Some 9 |}
           (VRef 51) 52 {| body_of := Elems [VStr "a"; VStr "b"]; proto := Some 9 |}
           [VStr "a"; VStr "b"] (VRef 53) [VStr "x"]).
  - reflexivity.
  - reflexivity.
  - vm_compute. reflexivity.
  - reflexivity.
  - field_here.
  - field_here.
  - vm_compute. reflexivity.
  - reflexivity.
  - field_here.
  - apply (listed_cons _ _ (VStr "a") [VStr "b"] (VRef 5) (VBool false) (VStr "x") []);
      [field_here|field_here|field_here|].
    apply (listed_cons _ _ (VStr "b") [] (VRef 54) (VBool true) (VStr "y") []);
      [field_here|field_here|field_here|constructor].
Defined.

End MoreRuns.
